(** * Verification of the EIR module-builder support header

    Source: compiler/codegen_llvm/lib/lumen/EIR/Builder/ModuleBuilderSupport.h

    The header holds the definition resolver [getDefinition] (with its typed
    variant) and the plain data records through which the front end hands
    map updates, closures, binary specifiers and match operations to the
    builder.  The resolver and the records are embedded here as they are
    written; the lowering routines that consume the records are not part of
    the header and are modelled separately, each under a comment saying so. *)

From Stdlib Require Import ZArith List Bool Lia String.
From stdpp Require Import base option list gmap strings.
Import ListNotations.

Local Open Scope nat_scope.

(** ** Outcome of running recursive code

    [getDefinition] recurses without a bound, the MLIR accessors it calls
    assert that their index is in range, and the lambda it hands to [walk]
    can run off its end without a return statement.  A run either returns,
    or is cut off because the recursion is deeper than the fuel given, or
    stops at a failed assertion, or reaches a point from which the language
    leaves the behaviour undefined. *)

Inductive run (A : Type) : Type :=
| Done (a : A)
| OutOfFuel
| AssertFail
| Undefined.

Arguments Done {A} a.
Arguments OutOfFuel {A}.
Arguments AssertFail {A}.
Arguments Undefined {A}.

Definition run_bind {A B : Type} (m : run A) (k : A -> run B) : run B :=
  match m with
  | Done a => k a
  | OutOfFuel => OutOfFuel
  | AssertFail => AssertFail
  | Undefined => Undefined
  end.

(** The run neither exhausts the recursion nor trips an assertion. *)
Definition settles {A : Type} (x : run A) : Prop :=
  x <> OutOfFuel /\ x <> AssertFail.

Notation "'let*' x ':=' m 'in' k" := (run_bind m (fun x => k))
  (at level 10, x name, m at level 100, k at level 200).

(** ** The part of the MLIR graph that [getDefinition] reads *)

Module IR.

(** [Operation *] and [Block *]: an operation is named by a unique number, a
    block by its position in the function's region.  A null [Operation *] is
    [None]. *)
Definition OperationPtr := nat.
Definition BlockPtr := nat.

(** [mlir::Value]: null, a result of an operation, or an argument of a
    block. *)
Inductive Value : Type :=
| NullValue
| OpResult (owner : OperationPtr) (resultNumber : nat)
| BlockArgument (owner : BlockPtr) (argNumber : nat).

(** An operation that implements [BranchOpInterface]:
    [successorOperands] is what [getSuccessorOperands(i)] answers for each
    successor index [i] ([None] inside the list is [llvm::None]). *)
Record BranchOp : Type := mkBranchOp {
  getOperation : OperationPtr;
  successorOperands : list (option (list Value))
}.

(** A block: [branchOps] are the [BranchOpInterface] operations that
    [Block::walk] meets, in walk order; [successors] is the range
    [succ_begin() .. succ_end()]; [numArguments] is the number of block
    arguments. *)
Record Block : Type := mkBlock {
  numArguments : nat;
  branchOps : list BranchOp;
  successors : list BlockPtr
}.

(** The region of one function; the entry block is the first one. *)
Definition Region := list Block.

Inductive WalkResult : Type := advance | interrupt.

(** What happens when the lambda handed to [walk] runs off its end (it has
    no return statement after its loop, lines 29-49): the language leaves
    this undefined.  Either the walk is handed some [WalkResult] all the
    same, as a build without optimisation does, or nothing can be said of
    the run from there on. *)
Inductive FallOff : Type :=
| returns (w : WalkResult)
| undefined.

Coercion returns : WalkResult >-> FallOff.

Definition isEntryBlock (block : BlockPtr) : bool := Nat.eqb block 0.

(** [Block::getPredecessors]: one entry for every successor edge that targets
    [block], so a predecessor with two edges into [block] is listed twice.
    MLIR lists them in the order of the block's use list; here they come in
    region order, and the example regions below put a loop edge last
    ([selfLoop]) and first ([selfLoopFirst]). *)
Definition getPredecessors (g : Region) (block : BlockPtr) : list Block :=
  flat_map
    (fun pred =>
       flat_map (fun succ => if Nat.eqb succ block then [pred] else [])
                (successors pred))
    g.

Definition hasNoPredecessors (g : Region) (block : BlockPtr) : bool :=
  match getPredecessors g block with
  | [] => true
  | _ :: _ => false
  end.

(** [Value::getDefiningOp]: the owner of an operation result, null for
    anything else. *)
Definition getDefiningOp (val : Value) : option OperationPtr :=
  match val with
  | OpResult owner _ => Some owner
  | _ => None
  end.

Definition isNonNull (p : option OperationPtr) : bool :=
  match p with Some _ => true | None => false end.

(** Pointer comparison [a != b] on [Operation *]. *)
Definition ptr_neq (a b : option OperationPtr) : bool :=
  match a, b with
  | Some x, Some y => negb (Nat.eqb x y)
  | None, None => false
  | _, _ => true
  end.

(** The successor range of a block paired with [it.getIndex()]. *)
Definition indexed {A : Type} (l : list A) : list (nat * A) :=
  combine (seq 0 (length l)) l.

Section Resolver.

(** The lambda handed to [walk] returns [WalkResult::interrupt()] on one
    path and runs off its end on the other, so what [walk] receives there
    is not fixed by the source.  It is a parameter here: a statement about
    [fallOff : WalkResult] holds for both values the walk can be handed, a
    statement about [undefined] for the language's reading of that path. *)
Variable fallOff : FallOff.

Section Loops.

(** The recursive call [getDefinition(candidate)]. *)
Variable recurse : Value -> run (option OperationPtr).
Variable block : BlockPtr.
Variable index : nat.

(** Lines 31-48: the loop over the successors of [pred] inside the
    lambda, for the branch operation [branchInterface]; [found] is the
    captured variable. *)
Fixpoint successorLoop (branchInterface : BranchOp)
         (its : list (nat * BlockPtr)) (found : option OperationPtr)
  : run (WalkResult * option OperationPtr) :=
  match its with
  | [] =>
      match fallOff with
      | returns w => Done (w, found)
      | undefined => Undefined
      end
  | (i, succ) :: rest =>
      if negb (Nat.eqb block succ) then
        successorLoop branchInterface rest found
      else
        match nth_error (successorOperands branchInterface) i with
        | None => AssertFail
        | Some None => successorLoop branchInterface rest found
        | Some (Some operands) =>
            match nth_error operands index with
            | None => AssertFail
            | Some candidate =>
                let* def := recurse candidate in
                if isNonNull found && ptr_neq def found then
                  Done (interrupt, found)
                else
                  successorLoop branchInterface rest def
            end
        end
  end.

(** Lines 29-49: [pred->walk(...)] over the branch operations of
    [pred]. *)
Fixpoint walk (pred : Block) (ops : list BranchOp)
         (found : option OperationPtr) : run (option OperationPtr) :=
  match ops with
  | [] => Done found
  | branchInterface :: rest =>
      let* r :=
        successorLoop branchInterface (indexed (successors pred)) found in
      match r with
      | (interrupt, found') => Done found'
      | (advance, found') => walk pred rest found'
      end
  end.

(** Lines 26-56: the loop over the predecessors, and the [return] that
    follows it. *)
Fixpoint predecessorLoop (preds : list Block)
         (result : option OperationPtr) : run (option OperationPtr) :=
  match preds with
  | [] => Done None
  | pred :: rest =>
      let* found := walk pred (branchOps pred) None in
      if isNonNull result && ptr_neq found result then Done None
      else predecessorLoop rest found
  end.

End Loops.

(** Lines 10-59.  [fuel] bounds the depth of the recursion. *)
Fixpoint getDefinition (fuel : nat) (g : Region) (val : Value)
  : run (option OperationPtr) :=
  match fuel with
  | O => OutOfFuel
  | S fuel' =>
      match val with
      | BlockArgument block index =>
          if isEntryBlock block then Done None
          else if hasNoPredecessors g block then Done None
          else predecessorLoop (getDefinition fuel' g) block index
                               (getPredecessors g block) None
      | _ => Done (getDefiningOp val)
      end
  end.

(** Lines 61-64: [llvm::dyn_cast_or_null<OpTy>] and the typed variant.
    [classof] is [OpTy::classof]. *)
Definition dyn_cast_or_null (classof : OperationPtr -> bool)
           (op : option OperationPtr) : option OperationPtr :=
  match op with
  | None => None
  | Some o => if classof o then Some o else None
  end.

Definition getDefinitionT (classof : OperationPtr -> bool)
           (fuel : nat) (g : Region) (val : Value)
  : run (option OperationPtr) :=
  let* op := getDefinition fuel g val in
  Done (dyn_cast_or_null classof op).

End Resolver.

(** *** The operands forwarded into a block argument

    What the three loops look at for the argument [index] of [block]: one
    [Edge] for every (predecessor, branch operation, successor position)
    whose successor is [block]. *)

Inductive Edge : Type :=
| EdgeFault              (* an index is out of range: the accessor asserts *)
| EdgeSkip               (* [getSuccessorOperands] has no value *)
| EdgeValue (candidate : Value).

Definition edgeOf (branchInterface : BranchOp) (i index : nat) : Edge :=
  match nth_error (successorOperands branchInterface) i with
  | None => EdgeFault
  | Some None => EdgeSkip
  | Some (Some operands) =>
      match nth_error operands index with
      | None => EdgeFault
      | Some candidate => EdgeValue candidate
      end
  end.

Definition edgesOfBranch (block : BlockPtr) (index : nat)
           (branchInterface : BranchOp) (its : list (nat * BlockPtr))
  : list Edge :=
  flat_map
    (fun it => if Nat.eqb block (snd it)
               then [edgeOf branchInterface (fst it) index] else [])
    its.

Definition edgesOfPred (block : BlockPtr) (index : nat) (pred : Block)
  : list Edge :=
  flat_map
    (fun br => edgesOfBranch block index br (indexed (successors pred)))
    (branchOps pred).

Definition incoming (g : Region) (block : BlockPtr) (index : nat)
  : list Edge :=
  flat_map (edgesOfPred block index) (getPredecessors g block).

(** The edge is in range and the recursive call on its operand neither
    exhausts the recursion nor trips an assertion. *)
Definition edgeSettles (recurse : Value -> run (option OperationPtr))
           (e : Edge) : Prop :=
  match e with
  | EdgeFault => False
  | EdgeSkip => True
  | EdgeValue candidate => settles (recurse candidate)
  end.

(** A value names something that exists in the region. *)
Definition valueInRange (g : Region) (val : Value) : bool :=
  match val with
  | BlockArgument block index =>
      match nth_error g block with
      | Some b => Nat.ltb index (numArguments b)
      | None => false
      end
  | _ => true
  end.

(** [rank] certifies that forwarding is acyclic and in range: every operand
    forwarded into a block argument exists and has a smaller rank than the
    argument. *)
Definition edgeCertified (g : Region) (rank : Value -> nat)
           (block : BlockPtr) (index : nat) (e : Edge) : bool :=
  match e with
  | EdgeFault => false
  | EdgeSkip => true
  | EdgeValue candidate =>
      Nat.ltb (rank candidate) (rank (BlockArgument block index))
      && valueInRange g candidate
  end.

Definition certified (g : Region) (rank : Value -> nat) : bool :=
  forallb
    (fun ib =>
       forallb
         (fun index =>
            forallb (edgeCertified g rank (fst ib) index)
                    (incoming g (fst ib) index))
         (seq 0 (numArguments (snd ib))))
    (indexed g).

(** *** Example graphs *)

(** Entry block [^0] computes [%7] and branches to [^1(%7)]; [^1] has one
    argument. *)
Definition singlePred : Region :=
  [ mkBlock 0 [mkBranchOp 8 [Some [OpResult 7 0]]] [1];
    mkBlock 1 [] [] ].

(** Entry block [^0] branches to [^1(%7)]; [^1] branches back to itself
    with its own argument. *)
Definition selfLoop : Region :=
  [ mkBlock 0 [mkBranchOp 8 [Some [OpResult 7 0]]] [1];
    mkBlock 1 [mkBranchOp 9 [Some [BlockArgument 1 0]]] [1] ].

(** The same loop with the other predecessor listed after the loop block:
    [^0] branches to [^2], [^1] loops, [^2] branches to [^1(%7)]. *)
Definition selfLoopFirst : Region :=
  [ mkBlock 0 [mkBranchOp 8 [Some []]] [2];
    mkBlock 1 [mkBranchOp 9 [Some [BlockArgument 1 0]]] [1];
    mkBlock 0 [mkBranchOp 10 [Some [OpResult 7 0]]] [1] ].

(** A diamond: [^0] branches to [^1] or [^2], both branch to [^3(%7)], and
    [^3] passes its argument on to [^4]. *)
Definition diamond : Region :=
  [ mkBlock 0 [mkBranchOp 8 [Some []; Some []]] [1; 2];
    mkBlock 0 [mkBranchOp 9 [Some [OpResult 7 0]]] [3];
    mkBlock 0 [mkBranchOp 10 [Some [OpResult 7 0]]] [3];
    mkBlock 1 [mkBranchOp 11 [Some [BlockArgument 3 0]]] [4];
    mkBlock 1 [] [] ].

(** A rank for [diamond]: operation results first, then block arguments by
    block. *)
Definition rankByBlock (val : Value) : nat :=
  match val with
  | BlockArgument block _ => S block
  | _ => 0
  end.

End IR.

(** ** C++ unions of standard-layout structs

    [EirType], [BinarySpecifierPayload] and [MLIRMatchPatternPayload] are
    plain unions.  A union object holds the member that was last assigned
    (the active member).  A field may be read through the active member and,
    by the common-initial-sequence rule for standard-layout structs, through
    another member when the field lies in the sequence the two structs
    share.  Any other read has no defined result. *)

Module CUnion.

Local Open Scope string_scope.

Inductive CType : Type :=
| CBool
| CUnsigned
| CInt64
| CEnum (name : string).

Definition ctype_eqb (a b : CType) : bool :=
  match a, b with
  | CBool, CBool => true
  | CUnsigned, CUnsigned => true
  | CInt64, CInt64 => true
  | CEnum x, CEnum y => String.eqb x y
  | _, _ => false
  end.

(** A struct: its fields in declaration order.  A union: its members. *)
Definition StructType := list (string * CType).
Definition UnionType := list (string * StructType).

(** Length of the common initial sequence of two structs: the leading fields
    whose types agree, position by position. *)
Fixpoint commonInitial (a b : StructType) : nat :=
  match a, b with
  | (_, ta) :: a', (_, tb) :: b' =>
      if ctype_eqb ta tb then S (commonInitial a' b') else 0
  | _, _ => 0
  end.

Fixpoint fieldIndex (s : StructType) (field : string) : option nat :=
  match s with
  | [] => None
  | (name, _) :: rest =>
      if String.eqb name field then Some 0
      else match fieldIndex rest field with
           | Some k => Some (S k)
           | None => None
           end
  end.

Fixpoint memberType (u : UnionType) (member : string) : option StructType :=
  match u with
  | [] => None
  | (name, s) :: rest =>
      if String.eqb name member then Some s else memberType rest member
  end.

(** A union object: the active member and the values of its fields. *)
Record Object : Type := mkObject {
  active : string;
  stored : list Z
}.

Inductive access (A : Type) : Type :=
| Defined (a : A)
| Undefined.

Arguments Defined {A} a.
Arguments Undefined {A}.

(** [u.member = {values}]. *)
Definition assign (member : string) (values : list Z) : Object :=
  mkObject member values.

(** [u.member.field]. *)
Definition read (u : UnionType) (o : Object) (member field : string)
  : access Z :=
  match memberType u member, memberType u (active o) with
  | Some sm, Some sa =>
      match fieldIndex sm field with
      | Some k =>
          if String.eqb member (active o) || Nat.ltb k (commonInitial sm sa)
          then match nth_error (stored o) k with
               | Some z => Defined z
               | None => Undefined
               end
          else Undefined
      | None => Undefined
      end
  | _, _ => Undefined
  end.

End CUnion.

(** ** Opaque handles (lumen/mlir/IR.h) *)

Definition MLIRValueRef := IR.Value.
Definition MLIRBlockRef := IR.BlockPtr.
Definition MLIRLocationRef := nat.
Definition MLIRAttributeRef := nat.

(** ** Types (lines 92-118) *)

Module Eir.

Local Open Scope string_scope.
Import CUnion.

(** The enumerators of [EirTypeTag::TypeTag] come from EIREncoding.h.inc,
    which is not part of the header; a tag is any value of the enumeration. *)
Definition TypeTag : CType := CEnum "EirTypeTag::TypeTag".

Definition EirTypeAny : StructType := [("tag", TypeTag)].
Definition EirTypeTuple : StructType :=
  [("tag", TypeTag); ("arity", CUnsigned)].

Definition EirType : UnionType :=
  [("any", EirTypeAny); ("tuple", EirTypeTuple)].

(** The two ways an [EirType] is written. *)
Definition writeAny (tag : Z) : Object := assign "any" [tag].
Definition writeTuple (tag arity : Z) : Object := assign "tuple" [tag; arity].

Definition any_tag (t : Object) : access Z := read EirType t "any" "tag".
Definition tuple_tag (t : Object) : access Z := read EirType t "tuple" "tag".
Definition tuple_arity (t : Object) : access Z :=
  read EirType t "tuple" "arity".

(** Modelled from the spec: a reader that lets the tag select the shape (no
    reader is in the header).  [isTuple] says which enumerators stand for a
    tuple; they come from EIREncoding.h.inc.  The answer is the tag, with
    the arity when the tag stands for a tuple. *)
Definition readShape (isTuple : Z -> bool) (t : Object)
  : access (Z * option Z) :=
  match any_tag t with
  | Defined tag =>
      if isTuple tag then
        match tuple_arity t with
        | Defined arity => Defined (tag, Some arity)
        | Undefined => Undefined
        end
      else Defined (tag, None)
  | Undefined => Undefined
  end.

End Eir.

(** ** Binary support types (lines 193-242) *)

Module Endianness.
Inductive Type_ : Type := Big | Little | Native.
Definition toZ (e : Type_) : Z :=
  match e with Big => 0 | Little => 1 | Native => 2 end.
End Endianness.

Module BinarySpecifierType.
Inductive Type_ : Type :=
| Integer | Float | Bytes | Bits | Utf8 | Utf16 | Utf32.
End BinarySpecifierType.

Module Binary.

Local Open Scope string_scope.
Import CUnion.

Definition EndiannessType : CType := CEnum "Endianness::Type".

Definition IntegerSpecifier : StructType :=
  [("isSigned", CBool); ("endianness", EndiannessType); ("unit", CInt64)].
Definition FloatSpecifier : StructType :=
  [("endianness", EndiannessType); ("unit", CInt64)].
Definition UnitSpecifier : StructType := [("unit", CInt64)].
Definition EndiannessSpecifier : StructType :=
  [("endianness", EndiannessType)].

Definition BinarySpecifierPayload : UnionType :=
  [("i", IntegerSpecifier); ("f", FloatSpecifier);
   ("us", UnitSpecifier); ("es", EndiannessSpecifier)].

Record BinarySpecifier : Type := mkBinarySpecifier {
  tag : BinarySpecifierType.Type_;
  payload : Object
}.

(** Aggregate initialisers of the four payload members. *)
Definition payload_i (isSigned : bool) (e : Endianness.Type_) (unit : Z)
  : Object :=
  assign "i" [Z.b2z isSigned; Endianness.toZ e; unit].
Definition payload_f (e : Endianness.Type_) (unit : Z) : Object :=
  assign "f" [Endianness.toZ e; unit].
Definition payload_us (unit : Z) : Object := assign "us" [unit].
Definition payload_es (e : Endianness.Type_) : Object :=
  assign "es" [Endianness.toZ e].

(** [spec.payload.member.field]: the header offers plain member access and
    nothing else. *)
Definition readPayload (spec : BinarySpecifier) (member field : string)
  : access Z :=
  read BinarySpecifierPayload (payload spec) member field.

(** A specifier tagged [Bytes] whose payload was stored through [i]. *)
Definition bytesWithInteger : BinarySpecifier :=
  mkBinarySpecifier BinarySpecifierType.Bytes
                    (payload_i true Endianness.Big 8).

(** A specifier tagged [Bytes] whose payload was stored through [us]. *)
Definition bytesWithUnit : BinarySpecifier :=
  mkBinarySpecifier BinarySpecifierType.Bytes (payload_us 8).

End Binary.

(** ** MatchOp support types (lines 248-394) *)

Module MatchPatternType.

Inductive t : Type :=
| Any | Cons | Tuple | MapItem | IsType | Value | Binary.

(** [enum class MatchPatternType : uint32_t]: the enumerators count from 0. *)
Definition toZ (k : t) : Z :=
  match k with
  | Any => 0 | Cons => 1 | Tuple => 2 | MapItem => 3
  | IsType => 4 | Value => 5 | Binary => 6
  end.

(** [a == b] on the enumeration. *)
Definition eqb (a b : t) : bool := Z.eqb (toZ a) (toZ b).

End MatchPatternType.

Module MatchOp.

Import MatchPatternType.

(** [mlir::Type], named by the type tag it stands for. *)
Definition TypeRef := Z.

(** *** The class hierarchy *)

Record MatchPattern : Type := new_MatchPattern { tag : MatchPatternType.t }.

Definition getKind (p : MatchPattern) : MatchPatternType.t := tag p.

Record AnyPattern : Type := mkAnyPattern { AnyPattern_base : MatchPattern }.
Definition new_AnyPattern : AnyPattern := mkAnyPattern (new_MatchPattern Any).
Definition AnyPattern_classof (pattern : MatchPattern) : bool :=
  eqb (getKind pattern) Any.

Record ConsPattern : Type := mkConsPattern { ConsPattern_base : MatchPattern }.
Definition new_ConsPattern : ConsPattern :=
  mkConsPattern (new_MatchPattern Cons).
Definition ConsPattern_classof (pattern : MatchPattern) : bool :=
  eqb (getKind pattern) Cons.

Record TuplePattern : Type := mkTuplePattern {
  TuplePattern_base : MatchPattern;
  arity : Z
}.
Definition new_TuplePattern (arity : Z) : TuplePattern :=
  mkTuplePattern (new_MatchPattern Tuple) arity.
Definition getArity (p : TuplePattern) : Z := arity p.
Definition TuplePattern_classof (pattern : MatchPattern) : bool :=
  eqb (getKind pattern) Tuple.

Record MapPattern : Type := mkMapPattern {
  MapPattern_base : MatchPattern;
  key : IR.Value
}.
Definition new_MapPattern (key : IR.Value) : MapPattern :=
  mkMapPattern (new_MatchPattern MapItem) key.
Definition getKey (p : MapPattern) : IR.Value := key p.
Definition MapPattern_classof (pattern : MatchPattern) : bool :=
  eqb (getKind pattern) MapItem.

Record IsTypePattern : Type := mkIsTypePattern {
  IsTypePattern_base : MatchPattern;
  expectedType : TypeRef
}.
Definition new_IsTypePattern (ty : TypeRef) : IsTypePattern :=
  mkIsTypePattern (new_MatchPattern IsType) ty.
Definition getExpectedType (p : IsTypePattern) : TypeRef := expectedType p.
Definition IsTypePattern_classof (pattern : MatchPattern) : bool :=
  eqb (getKind pattern) IsType.

Record ValuePattern : Type := mkValuePattern {
  ValuePattern_base : MatchPattern;
  value : IR.Value
}.
Definition new_ValuePattern (value : IR.Value) : ValuePattern :=
  mkValuePattern (new_MatchPattern Value) value.
Definition getValue (p : ValuePattern) : IR.Value := value p.
Definition ValuePattern_classof (pattern : MatchPattern) : bool :=
  eqb (getKind pattern) Value.

Record BinaryPattern : Type := mkBinaryPattern {
  BinaryPattern_base : MatchPattern;
  size : option IR.Value;
  spec : Binary.BinarySpecifier
}.
Definition new_BinaryPattern (spec : Binary.BinarySpecifier)
           (size : option IR.Value) : BinaryPattern :=
  mkBinaryPattern (new_MatchPattern Binary) size spec.
Definition getSize (p : BinaryPattern) : option IR.Value := size p.
Definition getSpec (p : BinaryPattern) : Binary.BinarySpecifier := spec p.
Definition BinaryPattern_classof (pattern : MatchPattern) : bool :=
  eqb (getKind pattern) Binary.

(** The seven subclasses, and an object of any of them. *)
Inductive PatternClass : Type :=
| AnyPatternClass | ConsPatternClass | TuplePatternClass | MapPatternClass
| IsTypePatternClass | ValuePatternClass | BinaryPatternClass.

Inductive PatternObject : Type :=
| AnyObject (o : AnyPattern)
| ConsObject (o : ConsPattern)
| TupleObject (o : TuplePattern)
| MapObject (o : MapPattern)
| IsTypeObject (o : IsTypePattern)
| ValueObject (o : ValuePattern)
| BinaryObject (o : BinaryPattern).

(** The [MatchPattern] base of an object (what a [MatchPattern *] to it
    sees), and the class it was created as. *)
Definition base (o : PatternObject) : MatchPattern :=
  match o with
  | AnyObject o => AnyPattern_base o
  | ConsObject o => ConsPattern_base o
  | TupleObject o => TuplePattern_base o
  | MapObject o => MapPattern_base o
  | IsTypeObject o => IsTypePattern_base o
  | ValueObject o => ValuePattern_base o
  | BinaryObject o => BinaryPattern_base o
  end.

Definition classOfObject (o : PatternObject) : PatternClass :=
  match o with
  | AnyObject _ => AnyPatternClass
  | ConsObject _ => ConsPatternClass
  | TupleObject _ => TuplePatternClass
  | MapObject _ => MapPatternClass
  | IsTypeObject _ => IsTypePatternClass
  | ValueObject _ => ValuePatternClass
  | BinaryObject _ => BinaryPatternClass
  end.

(** A constructor call of one of the seven subclasses, and the object it
    creates. *)
Inductive NewExpr : Type :=
| NewAny
| NewCons
| NewTuple (arity : Z)
| NewMap (key : IR.Value)
| NewIsType (ty : TypeRef)
| NewValue (value : IR.Value)
| NewBinary (spec : Binary.BinarySpecifier) (size : option IR.Value).

Definition construct (e : NewExpr) : PatternObject :=
  match e with
  | NewAny => AnyObject new_AnyPattern
  | NewCons => ConsObject new_ConsPattern
  | NewTuple arity => TupleObject (new_TuplePattern arity)
  | NewMap key => MapObject (new_MapPattern key)
  | NewIsType ty => IsTypeObject (new_IsTypePattern ty)
  | NewValue value => ValueObject (new_ValuePattern value)
  | NewBinary spec size => BinaryObject (new_BinaryPattern spec size)
  end.

(** [C::classof(pattern)], the test behind [llvm::isa] and
    [llvm::dyn_cast]. *)
Definition classof (c : PatternClass) (pattern : MatchPattern) : bool :=
  match c with
  | AnyPatternClass => AnyPattern_classof pattern
  | ConsPatternClass => ConsPattern_classof pattern
  | TuplePatternClass => TuplePattern_classof pattern
  | MapPatternClass => MapPattern_classof pattern
  | IsTypePatternClass => IsTypePattern_classof pattern
  | ValuePatternClass => ValuePattern_classof pattern
  | BinaryPatternClass => BinaryPattern_classof pattern
  end.

Definition dyn_cast (c : PatternClass) (pattern : MatchPattern)
  : option MatchPattern :=
  if classof c pattern then Some pattern else None.

(** The tag that belongs to each subclass. *)
Definition classTag (c : PatternClass) : MatchPatternType.t :=
  match c with
  | AnyPatternClass => Any
  | ConsPatternClass => Cons
  | TuplePatternClass => Tuple
  | MapPatternClass => MapItem
  | IsTypePatternClass => IsType
  | ValuePatternClass => Value
  | BinaryPatternClass => Binary
  end.

(** *** The records handed over by the front end (lines 362-394) *)

(** [MLIRMatchPatternPayload]: a union of an [unsigned], a value handle, an
    [EirType] and an [MLIRBinaryPayload]; the constructor says which member
    was stored. *)
Inductive MLIRMatchPatternPayload : Type :=
| payload_i (i : Z)
| payload_v (v : MLIRValueRef)
| payload_t (t : CUnion.Object)
| payload_b (size : MLIRValueRef) (spec : Binary.BinarySpecifier).

Record MLIRMatchPattern : Type := mkMLIRMatchPattern {
  pattern_tag : MatchPatternType.t;
  pattern_payload : MLIRMatchPatternPayload
}.

(** A pointer with its count ([destArgv]/[destArgc], [branches]/
    [numBranches]) is the array pointed to and the count; the reader takes
    the first [count] elements. *)
Record MLIRMatchBranch : Type := mkMLIRMatchBranch {
  branch_loc : MLIRLocationRef;
  dest : MLIRBlockRef;
  destArgv : list MLIRValueRef;
  destArgc : nat;
  pattern : MLIRMatchPattern
}.

Record Match : Type := mkMatch {
  match_loc : MLIRLocationRef;
  selector : MLIRValueRef;
  branches : list MLIRMatchBranch;
  numBranches : nat
}.

Definition destArgs (b : MLIRMatchBranch) : list MLIRValueRef :=
  firstn (destArgc b) (destArgv b).

Definition branchList (m : Match) : list MLIRMatchBranch :=
  firstn (numBranches m) (branches m).

End MatchOp.

(** ** Lowering a [Match]

    The header only declares the records.  The routine that turns a [Match]
    into a dispatch is not in it. *)

Module MatchLowering.

Import MatchPatternType MatchOp.

(** Modelled from the spec: the pattern a tagged [MLIRMatchPattern] stands
    for (the conversion routine is missing).  Each tag has the payload the
    data model lists for it: Tuple an arity, MapItem a key, IsType an
    expected type, Value a value, Binary a specifier with an optional size;
    Any and Cons have none.  A payload stored through another member is
    malformed. *)
Definition toPattern (p : MLIRMatchPattern) : option PatternObject :=
  match pattern_tag p, pattern_payload p with
  | Any, _ => Some (construct NewAny)
  | Cons, _ => Some (construct NewCons)
  | Tuple, payload_i i => Some (construct (NewTuple i))
  | MapItem, payload_v v => Some (construct (NewMap v))
  | IsType, payload_t t =>
      match Eir.any_tag t with
      | CUnion.Defined ty => Some (construct (NewIsType ty))
      | CUnion.Undefined => None
      end
  | Value, payload_v v => Some (construct (NewValue v))
  | Binary, payload_b size spec =>
      Some (construct
              (NewBinary spec
                         (match size with
                          | IR.NullValue => None
                          | _ => Some size
                          end)))
  | _, _ => None
  end.

(** Modelled from the spec: one arm of the emitted dispatch (the lowering
    routine is missing): the pattern, the destination block and the
    arguments passed to it. *)
Record Arm : Type := mkArm {
  arm_pattern : PatternObject;
  arm_dest : MLIRBlockRef;
  arm_args : list MLIRValueRef
}.

(** Modelled from the spec: the build step of the match lowering (missing
    from the header), which keeps the branches in list order and fails on a
    malformed pattern. *)
Fixpoint lowerBranches (bs : list MLIRMatchBranch) : option (list Arm) :=
  match bs with
  | [] => Some []
  | b :: rest =>
      match toPattern (pattern b), lowerBranches rest with
      | Some p, Some arms => Some (mkArm p (dest b) (destArgs b) :: arms)
      | _, _ => None
      end
  end.

(** Modelled from the spec: the build step applied to the [numBranches]
    branches of a [Match]. *)
Definition lowerMatch (m : Match) : option (list Arm) :=
  lowerBranches (branchList m).

(** Modelled from the spec: the terms a selector can be at run time (the
    source language's values are not defined in the header).  Map entries
    are kept in one canonical order. *)
#[local] Unset Elimination Schemes.
Inductive Term : Type :=
| TInt (z : Z)
| TAtom (name : string)
| TNil
| TCons (head tail : Term)
| TTuple (elements : list Term)
| TMap (entries : list (Term * Term))
| TBitstring (bits : list bool).
#[local] Set Elimination Schemes.

(** Modelled from the spec: exact equality of terms, used by the Value and
    MapItem patterns. *)
Fixpoint term_eqb (a b : Term) : bool :=
  match a, b with
  | TInt x, TInt y => Z.eqb x y
  | TAtom x, TAtom y => String.eqb x y
  | TNil, TNil => true
  | TCons h1 t1, TCons h2 t2 => term_eqb h1 h2 && term_eqb t1 t2
  | TTuple xs, TTuple ys =>
      (fix all2 (xs ys : list Term) : bool :=
         match xs, ys with
         | [], [] => true
         | x :: xs', y :: ys' => term_eqb x y && all2 xs' ys'
         | _, _ => false
         end) xs ys
  | TMap xs, TMap ys =>
      (fix all2 (xs ys : list (Term * Term)) : bool :=
         match xs, ys with
         | [], [] => true
         | (k1, v1) :: xs', (k2, v2) :: ys' =>
             term_eqb k1 k2 && term_eqb v1 v2 && all2 xs' ys'
         | _, _ => false
         end) xs ys
  | TBitstring x, TBitstring y =>
      (fix all2 (x y : list bool) : bool :=
         match x, y with
         | [], [] => true
         | b1 :: x', b2 :: y' => Bool.eqb b1 b2 && all2 x' y'
         | _, _ => false
         end) x y
  | _, _ => false
  end.

Section Dispatch.

(** The run-time term each IR value holds, the type tag of a term (the
    encoding table is not part of the header), and the decoder of binary
    segments (outside this core). *)
Variable env : IR.Value -> Term.
Variable typeTagOf : Term -> Z.
Variable segmentDecodes :
  Binary.BinarySpecifier -> option Term -> Term -> bool.

(** Modelled from the spec: the structural test of each pattern kind (the
    emitted tests are missing from the header).  Any always matches; Cons
    matches a non-empty list; Tuple a tuple of exactly that arity; MapItem
    a map containing the key; IsType a selector whose type tag equals the
    expected type; Value a selector equal to the literal; Binary a
    selector from which a segment decodes. *)
Definition structurallyMatches (p : PatternObject) (sel : Term) : bool :=
  match p with
  | AnyObject _ => true
  | ConsObject _ =>
      match sel with TCons _ _ => true | _ => false end
  | TupleObject o =>
      match sel with
      | TTuple elements => Z.eqb (Z.of_nat (length elements)) (getArity o)
      | _ => false
      end
  | MapObject o =>
      match sel with
      | TMap entries =>
          existsb (fun kv => term_eqb (fst kv) (env (getKey o))) entries
      | _ => false
      end
  | IsTypeObject o => Z.eqb (typeTagOf sel) (getExpectedType o)
  | ValueObject o => term_eqb sel (env (getValue o))
  | BinaryObject o =>
      segmentDecodes (getSpec o) (option_map env (getSize o)) sel
  end.

(** Modelled from the spec: the emitted dispatch (missing from the
    header): the arms are tested in order and control goes to the
    destination of the first arm that matches, with its arguments; [None]
    when no arm matches. *)
Fixpoint dispatch (arms : list Arm) (sel : Term)
  : option (MLIRBlockRef * list MLIRValueRef) :=
  match arms with
  | [] => None
  | arm :: rest =>
      if structurallyMatches (arm_pattern arm) sel
      then Some (arm_dest arm, arm_args arm)
      else dispatch rest sel
  end.

(** Modelled from the spec: build, then run on the selector's run-time
    term (both steps are missing from the header). *)
Definition runMatch (m : Match)
  : option (option (MLIRBlockRef * list MLIRValueRef)) :=
  match lowerMatch m with
  | Some arms => Some (dispatch arms (env (selector m)))
  | None => None
  end.

End Dispatch.

(** *** The example of the spec: blocks [Bt] = 1 and [Ba] = 2, the literal 5
    is the result of operation 100, the selector the result of operation
    101, which holds 5 at run time. *)

Definition literal5 : IR.Value := IR.OpResult 100 0.
Definition selector5 : IR.Value := IR.OpResult 101 0.

Definition envFive (v : IR.Value) : Term :=
  match v with
  | IR.OpResult 100 0 => TInt 5
  | IR.OpResult 101 0 => TInt 5
  | _ => TNil
  end.

Definition noTypeTags (t : Term) : Z := 0.
Definition noSegments (s : Binary.BinarySpecifier) (size : option Term)
           (t : Term) : bool := false.

Definition valueBranch : MLIRMatchBranch :=
  mkMLIRMatchBranch 0 1 [selector5] 1
                    (mkMLIRMatchPattern Value (payload_v literal5)).
Definition anyBranch : MLIRMatchBranch :=
  mkMLIRMatchBranch 0 2 [] 0 (mkMLIRMatchPattern Any (payload_i 0)).

Definition valueThenAny : Match :=
  mkMatch 0 selector5 [valueBranch; anyBranch] 2.
Definition anyThenValue : Match :=
  mkMatch 0 selector5 [anyBranch; valueBranch] 2.

(** A pair pattern in front of the two: it does not match 5. *)
Definition tupleBranch : MLIRMatchBranch :=
  mkMLIRMatchBranch 0 3 [] 0 (mkMLIRMatchPattern Tuple (payload_i 2)).
Definition tupleValueAny : Match :=
  mkMatch 0 selector5 [tupleBranch; valueBranch; anyBranch] 3.

End MatchLowering.

(** ** Maps and MapUpdate/MapAction (lines 143-170) *)

Module MapActionType.

Inductive t : Type := Unknown | Insert | Update.

(** [enum class MapActionType : uint32_t { Unknown = 0, Insert, Update }]. *)
Definition toZ (k : t) : Z :=
  match k with Unknown => 0 | Insert => 1 | Update => 2 end.

End MapActionType.

Module MapOps.

Record MapAction : Type := mkMapAction {
  action : MapActionType.t;
  key : MLIRValueRef;
  value : MLIRValueRef
}.

Record MapUpdate : Type := mkMapUpdate {
  loc : MLIRLocationRef;
  map : MLIRValueRef;
  ok : MLIRBlockRef;
  err : MLIRBlockRef;
  actionsv : list MapAction;
  actionsc : nat
}.

(** The [actionsc] actions read through [actionsv]. *)
Definition actions (mu : MapUpdate) : list MapAction :=
  firstn (actionsc mu) (actionsv mu).

Record MapEntry : Type := mkMapEntry {
  entry_key : MLIRValueRef;
  entry_value : MLIRValueRef
}.

Record KeyValuePair : Type := mkKeyValuePair {
  pair_key : MLIRAttributeRef;
  pair_value : MLIRAttributeRef
}.

(** *** Lowering a [MapUpdate]

    The routine that emits the control flow of a map update is not in the
    header. *)

(** Modelled from the spec: the build-time error of section 7 for an action
    of kind Unknown (the lowering routine is missing). *)
Inductive BuildError : Type := InvalidActionKind.

(** Modelled from the spec: the operation emitted for one action (the
    lowering routine is missing). *)
Inductive MapStep : Type :=
| StepInsert (key value : MLIRValueRef)
| StepUpdate (key value : MLIRValueRef).

(** Modelled from the spec: the build-time check of one action (the lowering
    routine is missing): an action of kind Unknown is rejected. *)
Definition lowerAction (a : MapAction) : BuildError + MapStep :=
  match action a with
  | MapActionType.Unknown => inl InvalidActionKind
  | MapActionType.Insert => inr (StepInsert (key a) (value a))
  | MapActionType.Update => inr (StepUpdate (key a) (value a))
  end.

(** Modelled from the spec: every action is checked before anything is
    emitted, and the steps keep the order of the actions. *)
Fixpoint lowerActions (acts : list MapAction) : BuildError + list MapStep :=
  match acts with
  | [] => inr []
  | a :: rest =>
      match lowerAction a, lowerActions rest with
      | inr step, inr steps => inr (step :: steps)
      | inl e, _ => inl e
      | _, inl e => inl e
      end
  end.

(** Modelled from the spec: the build step applied to the [actionsc] actions
    of a [MapUpdate]. *)
Definition lowerMapUpdate (mu : MapUpdate) : BuildError + list MapStep :=
  lowerActions (actions mu).

(** Modelled from the spec: what running the emitted code shows (the emitted
    code is missing from the header): the position of each action whose
    operation ran, and each transfer of control to the ok-block (with the
    map passed) or to the err-block. *)
Inductive Event : Type :=
| Evaluated (position : nat)
| ReachedOk (block : MLIRBlockRef) (result : gmap Z Z)
| ReachedErr (block : MLIRBlockRef).

Section Run.

(** The run-time term (a number) each IR value holds. *)
Variable env : MLIRValueRef -> Z.

(** Modelled from the spec: the run-time effect of one step (the emitted
    operations are missing from the header).  Insert always succeeds,
    creating or overwriting the key; Update needs the key to be present
    already. *)
Definition applyStep (step : MapStep) (m : gmap Z Z) : option (gmap Z Z) :=
  match step with
  | StepInsert k v => Some (<[env k := env v]> m)
  | StepUpdate k v =>
      match m !! env k with
      | Some _ => Some (<[env k := env v]> m)
      | None => None
      end
  end.

(** Modelled from the spec: the emitted control flow (missing from the
    header).  The steps run in order on the current map; the first step
    that fails branches to the err-block at once; when every step has
    succeeded control branches to the ok-block with the resulting map. *)
Fixpoint runSteps (okBlock errBlock : MLIRBlockRef) (steps : list MapStep)
         (position : nat) (m : gmap Z Z) : list Event :=
  match steps with
  | [] => [ReachedOk okBlock m]
  | step :: rest =>
      Evaluated position ::
      match applyStep step m with
      | Some m' => runSteps okBlock errBlock rest (S position) m'
      | None => [ReachedErr errBlock]
      end
  end.

(** Modelled from the spec: all the steps of a list applied in order, when
    each succeeds. *)
Fixpoint applySteps (steps : list MapStep) (m : gmap Z Z)
  : option (gmap Z Z) :=
  match steps with
  | [] => Some m
  | step :: rest =>
      match applyStep step m with
      | Some m' => applySteps rest m'
      | None => None
      end
  end.

(** Modelled from the spec: build, then run on the map's run-time value
    (both steps are missing from the header). *)
Definition runMapUpdate (mu : MapUpdate) (m : gmap Z Z)
  : BuildError + list Event :=
  match lowerMapUpdate mu with
  | inr steps => inr (runSteps (ok mu) (err mu) steps 0 m)
  | inl e => inl e
  end.

End Run.

Definition isReachedOk (e : Event) : bool :=
  match e with ReachedOk _ _ => true | _ => false end.
Definition isReachedErr (e : Event) : bool :=
  match e with ReachedErr _ => true | _ => false end.
Definition isEvaluated (e : Event) : bool :=
  match e with Evaluated _ => true | _ => false end.

(** *** An example: insert key 1, update key 1, update key 9 (absent),
    insert key 3; values name the number they hold. *)

Definition constant (n : nat) : MLIRValueRef := IR.OpResult n 0.

Definition envOwner (v : MLIRValueRef) : Z :=
  match v with
  | IR.OpResult owner _ => Z.of_nat owner
  | _ => 0
  end.

Definition threeGood : MapUpdate :=
  mkMapUpdate 0 (constant 50) 1 2
    [ mkMapAction MapActionType.Insert (constant 1) (constant 10);
      mkMapAction MapActionType.Update (constant 1) (constant 11);
      mkMapAction MapActionType.Insert (constant 3) (constant 30) ] 3.

Definition thirdFails : MapUpdate :=
  mkMapUpdate 0 (constant 50) 1 2
    [ mkMapAction MapActionType.Insert (constant 1) (constant 10);
      mkMapAction MapActionType.Update (constant 1) (constant 11);
      mkMapAction MapActionType.Update (constant 9) (constant 90);
      mkMapAction MapActionType.Insert (constant 3) (constant 30) ] 4.

End MapOps.

(** ** Closures (lines 176-187) *)

Module Closures.

Record Closure : Type := mkClosure {
  loc : MLIRLocationRef;
  module : MLIRAttributeRef;
  name : string;
  arity : Z;            (* uint8_t *)
  index : Z;            (* uint32_t *)
  oldUnique : Z;        (* uint32_t *)
  unique : list Z;      (* char[16] *)
  env : nat;            (* MLIRValueRef *: the address of the first cell *)
  envLen : Z            (* unsigned *)
}.

Definition UINT_MAX : Z := 2 ^ 32 - 1.

(** The cells the [env] pointers point into. *)
Abbreviation Heap := (gmap nat MLIRValueRef).

(** Modelled from the spec: writing the captured values for a closure (the
    code that fills [env] is missing from the header): the values go into
    consecutive cells from [base] on, in capture order. *)
Fixpoint storeArray (base : nat) (values : list MLIRValueRef) (h : Heap)
  : Heap :=
  match values with
  | [] => h
  | v :: rest => storeArray (S base) rest (<[base := v]> h)
  end.

(** Modelled from the spec: constructing a closure descriptor over an
    ordered captured environment (the constructing code is missing from the
    header); [envLen] is an [unsigned], so the count is stored modulo
    2^32. *)
Definition makeClosure (loc : MLIRLocationRef) (module : MLIRAttributeRef)
           (name : string) (arity index oldUnique : Z) (unique : list Z)
           (base : nat) (captured : list MLIRValueRef) (h : Heap)
  : Closure * Heap :=
  (mkClosure loc module name arity index oldUnique unique base
             (Z.of_nat (length captured) mod 2 ^ 32),
   storeArray base captured h).

(** Modelled from the spec: the positional read [env[i]] of a captured value
    (the reading code is missing from the header); positions from [envLen]
    on are not part of the environment. *)
Definition envAt (h : Heap) (c : Closure) (i : nat) : option MLIRValueRef :=
  if Z.ltb (Z.of_nat i) (envLen c) then h !! (env c + i)%nat else None.

(** Modelled from the spec: the read of [count] consecutive cells from
    [base] on (the reading code is missing from the header). *)
Fixpoint readArray (h : Heap) (base count : nat)
  : option (list MLIRValueRef) :=
  match count with
  | O => Some []
  | S count' =>
      match h !! base, readArray h (S base) count' with
      | Some v, Some rest => Some (v :: rest)
      | _, _ => None
      end
  end.

(** Modelled from the spec: reading the whole environment back, first to
    last. *)
Definition readEnv (h : Heap) (c : Closure) : option (list MLIRValueRef) :=
  readArray h (env c) (Z.to_nat (envLen c)).

End Closures.

(** ** The edges the resolver examines, in order

    The three nested loops of [getDefinition] amount to one pass over a list
    of edges.  The definitions below name that list and the pass, so that the
    behaviour of the loops can be stated edge by edge. *)

Module ResolverEdges.

Import IR.




(** The pass of lines 31-48 over the edges of one branch operation. *)
Fixpoint scanEdges (fallOff : FallOff)
         (recurse : Value -> run (option OperationPtr))
         (edges : list Edge) (found : option OperationPtr)
  : run (WalkResult * option OperationPtr) :=
  match edges with
  | [] =>
      match fallOff with
      | returns w => Done (w, found)
      | undefined => Undefined
      end
  | EdgeFault :: _ => AssertFail
  | EdgeSkip :: rest => scanEdges fallOff recurse rest found
  | EdgeValue candidate :: rest =>
      let* def := recurse candidate in
      if isNonNull found && ptr_neq def found then Done (interrupt, found)
      else scanEdges fallOff recurse rest def
  end.






(** The edges of one callback begin, edges without operands set aside, with
    results of two different operations: the first is taken as [found], the
    second differs from it, and the callback leaves through the
    [return WalkResult::interrupt()] of line 46. *)
Fixpoint secondDiffers (first : OperationPtr) (edges : list Edge) : bool :=
  match edges with
  | EdgeSkip :: rest => secondDiffers first rest
  | EdgeValue (OpResult owner _) :: _ => negb (Nat.eqb owner first)
  | _ => false
  end.

Fixpoint conflictingPair (edges : list Edge) : bool :=
  match edges with
  | EdgeSkip :: rest => conflictingPair rest
  | EdgeValue (OpResult owner _) :: rest => secondDiffers owner rest
  | _ => false
  end.

(** Every callback the walks start for the argument [index] of [block]
    leaves through line 46: each predecessor holds no branch operation, or
    the edges of its first branch operation begin with a conflicting
    pair. *)
Definition everyCallbackInterrupts (g : Region) (block : BlockPtr)
           (index : nat) : bool :=
  forallb
    (fun pred =>
       match branchOps pred with
       | [] => true
       | br :: _ =>
           conflictingPair
             (edgesOfBranch block index br (indexed (successors pred)))
       end)
    (getPredecessors g block).

Definition isValueEdge (e : Edge) : bool :=
  match e with
  | EdgeValue _ => true
  | _ => false
  end.

(** At most one of the edges carries an operand. *)
Definition atMostOneOperand (edges : list Edge) : bool :=
  Nat.leb (length (List.filter isValueEdge edges)) 1.

Definition holdsNoBranch (pred : Block) : bool :=
  match branchOps pred with
  | [] => true
  | _ :: _ => false
  end.

(** *** More example regions *)



(** The conditional branch of [^0] has [^1] as both successors, forwarding
    [%7] on one edge and [%8] on the other. *)
Definition bothEdges : Region :=
  [ mkBlock 0 [mkBranchOp 9 [Some [OpResult 7 0]; Some [OpResult 8 0]]]
            [1; 1];
    mkBlock 1 [] [] ].

End ResolverEdges.

(** * Properties of the definition resolver *)

Section ResolverFacts.

Import IR.

Variable fallOff : FallOff.

(** The predecessor loop can only end at line 52 or at line 56, and both
    return the null pointer. *)
Lemma predecessorLoop_null recurse block index preds :
  forall result r,
    predecessorLoop fallOff recurse block index preds result = Done r ->
    r = None.
Proof.
  induction preds as [|pred rest IH]; intros result r; simpl.
  - congruence.
  - destruct (walk fallOff recurse block index pred (branchOps pred) None)
      as [found| | |]; simpl; try discriminate.
    destruct (isNonNull result && ptr_neq found result).
    + congruence.
    + apply IH.
Qed.

Lemma getDefinition_BlockArgument_null fuel g block index r :
  getDefinition fallOff fuel g (BlockArgument block index) = Done r ->
  r = None.
Proof.
  destruct fuel as [|fuel]; simpl; [discriminate|].
  destruct (isEntryBlock block); [congruence|].
  destruct (hasNoPredecessors g block); [congruence|].
  apply predecessorLoop_null.
Qed.

Lemma getDefinition_nonnull fuel g val op :
  getDefinition fallOff fuel g val = Done (Some op) ->
  exists k, val = OpResult op k.
Proof.
  destruct val as [|owner k|block index]; intros H.
  - destruct fuel; simpl in H; discriminate.
  - destruct fuel; simpl in H; [discriminate|].
    exists k. congruence.
  - apply getDefinition_BlockArgument_null in H. discriminate.
Qed.

(** *** Bounded recursion under an acyclicity certificate *)

Lemma settles_bind {A B : Type} (m : run A) (k : A -> run B) :
  settles m -> (forall a, m = Done a -> settles (k a)) ->
  settles (run_bind m k).
Proof.
  intros [Hf Ha] Hk. destruct m as [a| | |]; cbn [run_bind].
  - now apply Hk.
  - congruence.
  - congruence.
  - split; discriminate.
Qed.

Section LoopsSettle.

Variable recurse : Value -> run (option OperationPtr).
Variable block : BlockPtr.
Variable index : nat.

Lemma successorLoop_settles branchInterface its :
  (forall e, In e (edgesOfBranch block index branchInterface its) ->
             edgeSettles recurse e) ->
  forall found,
    settles
      (successorLoop fallOff recurse block index branchInterface its found).
Proof.
  induction its as [|[i succ] rest IH]; intros Hedges found; simpl.
  - destruct fallOff; split; discriminate.
  - unfold edgesOfBranch in Hedges; simpl in Hedges.
    destruct (Nat.eqb block succ) eqn:Eb; simpl.
    + assert (Hhere : edgeSettles recurse (edgeOf branchInterface i index)).
      { apply Hedges. simpl. now left. }
      assert (Hrest : forall e,
                 In e (edgesOfBranch block index branchInterface rest) ->
                 edgeSettles recurse e).
      { intros e He. apply Hedges. simpl. now right. }
      unfold edgeOf in Hhere.
      destruct (nth_error (successorOperands branchInterface) i)
        as [[operands|]|]; simpl in Hhere; try contradiction.
      * destruct (nth_error operands index) as [candidate|];
          simpl in Hhere; try contradiction.
        apply settles_bind; [exact Hhere|]. intros def _.
        destruct (isNonNull found && ptr_neq def found);
          [split; discriminate | now apply IH].
      * now apply IH.
    + apply IH. intros e He. apply Hedges. exact He.
Qed.

Lemma walk_settles pred ops :
  (forall e,
      In e (flat_map
              (fun br =>
                 edgesOfBranch block index br (indexed (successors pred)))
              ops) ->
      edgeSettles recurse e) ->
  forall found,
    settles (walk fallOff recurse block index pred ops found).
Proof.
  induction ops as [|br rest IH]; intros Hedges found; simpl.
  - split; discriminate.
  - apply settles_bind.
    + apply successorLoop_settles.
      intros e He. apply Hedges. simpl. apply in_or_app. now left.
    + intros [wr found'] _. destruct wr.
      * apply IH. intros e He. apply Hedges. simpl. apply in_or_app.
        now right.
      * split; discriminate.
Qed.

Lemma predecessorLoop_settles preds :
  (forall e, In e (flat_map (edgesOfPred block index) preds) ->
             edgeSettles recurse e) ->
  forall result,
    settles (predecessorLoop fallOff recurse block index preds result).
Proof.
  induction preds as [|pred rest IH]; intros Hedges result; simpl.
  - split; discriminate.
  - apply settles_bind.
    + apply walk_settles.
      intros e He. apply Hedges. simpl. apply in_or_app. now left.
    + intros found _.
      destruct (isNonNull result && ptr_neq found result).
      * split; discriminate.
      * apply IH. intros e He. apply Hedges. simpl. apply in_or_app.
        now right.
Qed.

End LoopsSettle.

Lemma In_indexed_from {A : Type} (l : list A) :
  forall start i x,
    nth_error l i = Some x ->
    In ((start + i)%nat, x) (combine (seq start (length l)) l).
Proof.
  induction l as [|a l IH]; intros start i x H.
  - destruct i; discriminate.
  - destruct i as [|i]; simpl in *.
    + left. inversion H. f_equal. lia.
    + right. replace (start + S i)%nat with (S start + i)%nat by lia.
      now apply IH.
Qed.

Lemma In_indexed {A : Type} (l : list A) i x :
  nth_error l i = Some x -> In (i, x) (indexed l).
Proof. intros H. apply (In_indexed_from l 0 i x H). Qed.

Lemma certified_edge g rank block b index e :
  certified g rank = true ->
  nth_error g block = Some b ->
  index < numArguments b ->
  In e (incoming g block index) ->
  edgeCertified g rank block index e = true.
Proof.
  intros Hc Hb Hi He.
  unfold certified in Hc.
  rewrite forallb_forall in Hc.
  specialize (Hc (block, b) (In_indexed g block b Hb)). simpl in Hc.
  rewrite forallb_forall in Hc.
  assert (Hin : In index (seq 0 (numArguments b))).
  { apply in_seq. lia. }
  specialize (Hc index Hin).
  rewrite forallb_forall in Hc.
  now apply Hc.
Qed.

Lemma getDefinition_settles_within g rank :
  certified g rank = true ->
  forall fuel val,
    valueInRange g val = true ->
    rank val < fuel ->
    settles (getDefinition fallOff fuel g val).
Proof.
  intros Hc. induction fuel as [|fuel IH]; intros val Hval Hrank.
  - lia.
  - destruct val as [|owner k|block index]; simpl;
      try (split; discriminate).
    destruct (isEntryBlock block); [split; discriminate|].
    destruct (hasNoPredecessors g block); [split; discriminate|].
    apply predecessorLoop_settles.
    intros e He. simpl in Hval.
    destruct (nth_error g block) as [b|] eqn:Hb; [|discriminate].
    apply Nat.ltb_lt in Hval.
    pose proof (certified_edge g rank block b index e Hc Hb Hval He) as Hok.
    destruct e as [| |candidate]; simpl in *; try discriminate; auto.
    apply andb_true_iff in Hok. destruct Hok as [Hlt Hin].
    apply Nat.ltb_lt in Hlt.
    apply IH; [exact Hin | lia].
Qed.

End ResolverFacts.

Section SelfLoopFacts.

Import IR.

Variable fallOff : WalkResult.

(** *** The self-loop *)

Lemma selfLoop_step recurse :
  recurse (OpResult 7 0) <> AssertFail ->
  recurse (OpResult 7 0) <> Undefined ->
  recurse (BlockArgument 1 0) = OutOfFuel ->
  predecessorLoop fallOff recurse 1 0 (getPredecessors selfLoop 1) None
  = OutOfFuel.
Proof.
  intros Hentry Hdefined Hloop. cbn.
  destruct (recurse (OpResult 7 0)) as [def| | |]; cbn;
    [|reflexivity|congruence|congruence].
  destruct fallOff; cbn; rewrite Hloop; reflexivity.
Qed.

Lemma selfLoop_diverges :
  forall fuel,
    getDefinition fallOff fuel selfLoop (BlockArgument 1 0) = OutOfFuel.
Proof.
  induction fuel as [|fuel IH]; [reflexivity|].
  change (getDefinition fallOff (S fuel) selfLoop (BlockArgument 1 0))
    with (predecessorLoop fallOff (getDefinition fallOff fuel selfLoop) 1 0
                          (getPredecessors selfLoop 1) None).
  apply selfLoop_step; [| |exact IH]; destruct fuel; discriminate.
Qed.

(** With the fall-off undefined, the callback of [^0] ends the run before
    the loop edge is looked at. *)
Lemma selfLoop_undefined fuel r :
  getDefinition undefined fuel selfLoop (BlockArgument 1 0) <> Done r.
Proof. destruct fuel as [|[|fuel]]; cbn; discriminate. Qed.

End SelfLoopFacts.

Section SelfLoopFirstFacts.

Import IR.

Variable fallOff : FallOff.

Lemma selfLoopFirst_step recurse :
  recurse (BlockArgument 1 0) = OutOfFuel ->
  predecessorLoop fallOff recurse 1 0 (getPredecessors selfLoopFirst 1) None
  = OutOfFuel.
Proof. intros Hloop. cbn. rewrite Hloop. reflexivity. Qed.

Lemma selfLoopFirst_diverges :
  forall fuel,
    getDefinition fallOff fuel selfLoopFirst (BlockArgument 1 0) = OutOfFuel.
Proof.
  induction fuel as [|fuel IH]; [reflexivity|].
  change (getDefinition fallOff (S fuel) selfLoopFirst (BlockArgument 1 0))
    with (predecessorLoop fallOff (getDefinition fallOff fuel selfLoopFirst)
                          1 0 (getPredecessors selfLoopFirst 1) None).
  apply selfLoopFirst_step. exact IH.
Qed.

End SelfLoopFirstFacts.

Section ResolverClaims.

Import IR.

(** C1.  In [singlePred] the argument of [^1] has one predecessor, whose
    edge forwards [%7], and resolving [%7] gives its producing operation 7;
    yet resolving the block argument gives the null pointer: the loop over
    the predecessors computes [result] and line 56 returns [nullptr]
    instead.  The same happens in [diamond], where both edges into [^3]
    forward [%7]. *)
Theorem getDefinition_single_predecessor_null :
  forall (fallOff : WalkResult) (fuel : nat),
    incoming singlePred 1 0 = [EdgeValue (OpResult 7 0)] /\
    getDefinition fallOff (S fuel) singlePred (OpResult 7 0)
    = Done (Some 7) /\
    getDefinition fallOff (S (S fuel)) singlePred (BlockArgument 1 0)
    = Done None /\
    incoming diamond 3 0
    = [EdgeValue (OpResult 7 0); EdgeValue (OpResult 7 0)] /\
    getDefinition fallOff (S fuel) diamond (OpResult 7 0) = Done (Some 7) /\
    getDefinition fallOff (S (S fuel)) diamond (BlockArgument 3 0)
    = Done None.
Proof.
  intros fallOff fuel. repeat split; destruct fallOff; reflexivity.
Qed.

(** C2 (as stated) fails: on the self-loop with one other resolvable
    predecessor, in either predecessor order, no amount of fuel lets
    [getDefinition] return. *)
Lemma getDefinition_self_loop_never_returns :
  ~ (exists fallOff fuel r,
        getDefinition fallOff fuel selfLoop (BlockArgument 1 0) = Done r)
  /\
  ~ (exists fallOff fuel r,
        getDefinition fallOff fuel selfLoopFirst (BlockArgument 1 0)
        = Done r).
Proof.
  split; intros (fallOff & fuel & r & H).
  - destruct fallOff as [w|].
    + rewrite selfLoop_diverges in H. discriminate.
    + now apply selfLoop_undefined in H.
  - rewrite selfLoopFirst_diverges in H. discriminate.
Qed.

(** C2 (amended).  [getDefinition] keeps no visited set; what bounds its
    recursion is the graph: on every region whose forwarding is in range and
    acyclic, that is, where some rank strictly decreases from each block
    argument to every operand forwarded into it, a call never recurses
    deeper than the rank of its value and trips no bounds assertion,
    whatever becomes of a callback that runs off its end. *)
Theorem getDefinition_recursion_bounded_when_acyclic :
  forall (fallOff : FallOff) (g : Region) (rank : Value -> nat)
         (val : Value),
    certified g rank = true ->
    valueInRange g val = true ->
    forall fuel,
      rank val < fuel ->
      getDefinition fallOff fuel g val <> OutOfFuel /\
      getDefinition fallOff fuel g val <> AssertFail.
Proof.
  intros fallOff g rank val Hc Hval fuel Hfuel.
  now apply (getDefinition_settles_within fallOff g rank Hc).
Qed.

Lemma getDefinition_recursion_bounded_when_acyclic_witness :
  certified diamond rankByBlock = true /\
  valueInRange diamond (BlockArgument 4 0) = true /\
  rankByBlock (BlockArgument 4 0) < 6 /\
  getDefinition undefined 6 diamond (BlockArgument 4 0) <> OutOfFuel /\
  getDefinition undefined 6 diamond (BlockArgument 4 0) <> AssertFail /\
  getDefinition advance 6 diamond (BlockArgument 4 0) <> OutOfFuel /\
  getDefinition advance 6 diamond (BlockArgument 4 0) <> AssertFail.
Proof.
  split; [reflexivity|]. split; [reflexivity|]. split; [simpl; lia|].
  split; [|split; [|split]].
  - apply (getDefinition_recursion_bounded_when_acyclic
             undefined diamond rankByBlock (BlockArgument 4 0));
      [reflexivity | reflexivity | simpl; lia].
  - apply (getDefinition_recursion_bounded_when_acyclic
             undefined diamond rankByBlock (BlockArgument 4 0));
      [reflexivity | reflexivity | simpl; lia].
  - apply (getDefinition_recursion_bounded_when_acyclic
             advance diamond rankByBlock (BlockArgument 4 0));
      [reflexivity | reflexivity | simpl; lia].
  - apply (getDefinition_recursion_bounded_when_acyclic
             advance diamond rankByBlock (BlockArgument 4 0));
      [reflexivity | reflexivity | simpl; lia].
Defined.

(** C6.  A direct computation result resolves to its producing operation;
    an argument of the entry block, or of a block without predecessors,
    resolves to the null pointer; and a non-null answer is only ever the
    producing operation of the value asked about. *)
Theorem getDefinition_direct_entry_orphan :
  forall (fallOff : WalkResult) (fuel : nat) (g : Region),
    (forall op k,
        getDefinition fallOff (S fuel) g (OpResult op k) = Done (Some op)) /\
    (forall index,
        getDefinition fallOff (S fuel) g (BlockArgument 0 index)
        = Done None) /\
    (forall block index,
        hasNoPredecessors g block = true ->
        getDefinition fallOff (S fuel) g (BlockArgument block index)
        = Done None) /\
    (forall val op,
        getDefinition fallOff fuel g val = Done (Some op) ->
        exists k, val = OpResult op k).
Proof.
  intros fallOff fuel g. repeat split.
  - intros block index Hnone. simpl.
    destruct (isEntryBlock block); [reflexivity|].
    now rewrite Hnone.
  - intros val op. apply getDefinition_nonnull.
Qed.

Lemma getDefinition_direct_entry_orphan_witness :
  hasNoPredecessors singlePred 4 = true /\
  getDefinition advance 2 singlePred (BlockArgument 4 0) = Done None /\
  getDefinition advance 1 singlePred (OpResult 7 0) = Done (Some 7) /\
  exists k, OpResult 7 0 = OpResult 7 k.
Proof.
  pose proof (getDefinition_direct_entry_orphan advance 1 singlePred)
    as (_ & _ & Horphan & Hnonnull).
  split; [reflexivity|].
  split; [apply Horphan; reflexivity|].
  split; [reflexivity|].
  apply (Hnonnull (OpResult 7 0) 7). reflexivity.
Defined.

(** C7.  The typed variant returns an operation exactly when the untyped
    resolver returns that operation and it is of the requested kind; it
    returns null when the untyped resolver returns null or an operation of
    another kind; and it returns whenever the untyped resolver does. *)
Theorem getDefinitionT_filters_by_kind :
  forall (fallOff : WalkResult) (classof : OperationPtr -> bool)
         (fuel : nat) (g : Region) (val : Value),
    (forall op,
        getDefinitionT fallOff classof fuel g val = Done (Some op) <->
        getDefinition fallOff fuel g val = Done (Some op) /\
        classof op = true) /\
    (getDefinitionT fallOff classof fuel g val = Done None <->
     getDefinition fallOff fuel g val = Done None \/
     exists op, getDefinition fallOff fuel g val = Done (Some op) /\
                classof op = false) /\
    ((exists r, getDefinitionT fallOff classof fuel g val = Done r) <->
     (exists r, getDefinition fallOff fuel g val = Done r)).
Proof.
  intros fallOff classof fuel g val. unfold getDefinitionT.
  destruct (getDefinition fallOff fuel g val) as [[o|]| | |]; simpl;
    [destruct (classof o) eqn:Hk|..].
  all: split; [|split].
  all: try (intros op; split;
            [ intros H; inversion H; subst; auto
            | intros [H1 H2]; inversion H1; subst; congruence ]).
  all: try (split; intros [r H]; try discriminate; eauto).
  all: split;
    [ intros H; try discriminate; eauto
    | intros [H|(op & H & Hop)]; try discriminate;
      try (inversion H; subst; congruence); auto ].
Qed.

End ResolverClaims.

(** * Properties of the union-typed records *)

Section UnionClaims.

Import CUnion.
Local Open Scope string_scope.
Local Open Scope Z_scope.

(** C9.  [tag] is the first field of both [EirTypeAny] and [EirTypeTuple],
    so whichever member an [EirType] was written through, the tag that was
    stored is read back through [any] and through [tuple] alike; the arity
    is there to read only in what was written as a tuple.  A reader that
    looks at the tag first therefore reads each value in the shape it was
    written in, as long as the writer used a tuple tag exactly for
    tuples. *)
Theorem EirType_tag_read_through_either_member :
  forall tag arity : Z,
    fieldIndex Eir.EirTypeAny "tag" = Some 0%nat /\
    fieldIndex Eir.EirTypeTuple "tag" = Some 0%nat /\
    Eir.any_tag (Eir.writeAny tag) = Defined tag /\
    Eir.tuple_tag (Eir.writeAny tag) = Defined tag /\
    Eir.any_tag (Eir.writeTuple tag arity) = Defined tag /\
    Eir.tuple_tag (Eir.writeTuple tag arity) = Defined tag /\
    Eir.tuple_arity (Eir.writeTuple tag arity) = Defined arity /\
    Eir.tuple_arity (Eir.writeAny tag) = Undefined /\
    (forall isTuple : Z -> bool,
        isTuple tag = false ->
        Eir.readShape isTuple (Eir.writeAny tag) = Defined (tag, None)) /\
    (forall isTuple : Z -> bool,
        isTuple tag = true ->
        Eir.readShape isTuple (Eir.writeTuple tag arity)
        = Defined (tag, Some arity)).
Proof.
  intros tag arity. repeat split.
  - intros isTuple Hany. unfold Eir.readShape.
    change (Eir.any_tag (Eir.writeAny tag)) with (Defined tag).
    cbv beta iota. now rewrite Hany.
  - intros isTuple Htuple. unfold Eir.readShape.
    change (Eir.any_tag (Eir.writeTuple tag arity)) with (Defined tag).
    cbv beta iota. now rewrite Htuple.
Qed.

Lemma EirType_tag_read_through_either_member_witness :
  Eir.readShape (Z.eqb 9) (Eir.writeAny 4) = Defined (4, None) /\
  Eir.readShape (Z.eqb 9) (Eir.writeTuple 9 3) = Defined (9, Some 3).
Proof.
  split.
  - apply (EirType_tag_read_through_either_member 4 0). reflexivity.
  - apply (EirType_tag_read_through_either_member 9 3). reflexivity.
Defined.

(** C5 (as stated) fails: a specifier tagged [Bytes] holds an Integer
    payload, and one holds a unit of 8; both are ordinary values of the
    record, and their payload fields are read like any other, with no
    error. *)
Lemma BinarySpecifier_mismatch_is_accepted :
  Binary.tag Binary.bytesWithInteger = BinarySpecifierType.Bytes /\
  Binary.readPayload Binary.bytesWithInteger "i" "isSigned" = Defined 1 /\
  Binary.readPayload Binary.bytesWithInteger "i" "endianness" = Defined 0 /\
  Binary.readPayload Binary.bytesWithInteger "i" "unit" = Defined 8 /\
  Binary.tag Binary.bytesWithUnit = BinarySpecifierType.Bytes /\
  Binary.readPayload Binary.bytesWithUnit "us" "unit" = Defined 8.
Proof. repeat split. Qed.

(** C5 (amended).  The tag of a [BinarySpecifier] is a plain field next to
    an unchecked payload union with the members [i], [f], [us] and [es]:
    under every tag, each member can be stored and its fields read back as
    stored, and no read depends on the tag. *)
Theorem BinarySpecifier_payload_is_unchecked :
  forall tag : BinarySpecifierType.Type_,
    (forall isSigned e unit,
        let s := Binary.mkBinarySpecifier
                   tag (Binary.payload_i isSigned e unit) in
        Binary.readPayload s "i" "isSigned" = Defined (Z.b2z isSigned) /\
        Binary.readPayload s "i" "endianness" = Defined (Endianness.toZ e) /\
        Binary.readPayload s "i" "unit" = Defined unit) /\
    (forall e unit,
        let s := Binary.mkBinarySpecifier tag (Binary.payload_f e unit) in
        Binary.readPayload s "f" "endianness" = Defined (Endianness.toZ e) /\
        Binary.readPayload s "f" "unit" = Defined unit) /\
    (forall unit,
        let s := Binary.mkBinarySpecifier tag (Binary.payload_us unit) in
        Binary.readPayload s "us" "unit" = Defined unit) /\
    (forall e,
        let s := Binary.mkBinarySpecifier tag (Binary.payload_es e) in
        Binary.readPayload s "es" "endianness"
        = Defined (Endianness.toZ e)) /\
    (forall tag' p member field,
        Binary.readPayload (Binary.mkBinarySpecifier tag p) member field
        = Binary.readPayload (Binary.mkBinarySpecifier tag' p) member field).
Proof. intros tag. repeat split. Qed.

End UnionClaims.

(** * Properties of the match patterns *)

Section PatternClaims.

Import MatchPatternType MatchOp.

Lemma MatchPatternType_eqb_eq (a b : MatchPatternType.t) :
  MatchPatternType.eqb a b = true <-> a = b.
Proof.
  unfold MatchPatternType.eqb. split.
  - intros H. apply Z.eqb_eq in H.
    destruct a, b; simpl in H; solve [reflexivity | discriminate].
  - intros ->. apply Z.eqb_refl.
Qed.

Lemma classof_iff_kind (c : PatternClass) (p : MatchPattern) :
  classof c p = true <-> getKind p = classTag c.
Proof. destruct c; simpl; apply MatchPatternType_eqb_eq. Qed.

Lemma classTag_injective (c c' : PatternClass) :
  classTag c = classTag c' -> c = c'.
Proof. destruct c, c'; simpl; solve [reflexivity | discriminate]. Qed.

Lemma construct_kind (e : NewExpr) :
  getKind (base (construct e)) = classTag (classOfObject (construct e)).
Proof. destruct e; reflexivity. Qed.

(** C10.  Every constructor of the seven subclasses fixes the kind of the
    object it creates; [classof] of a subclass holds of a pattern exactly
    when the pattern's kind is that subclass's tag; the seven tags differ
    from one another; so of an object created by a subclass constructor
    exactly the [classof] of that subclass holds, and the tag-checked
    downcast succeeds for that subclass and for no other. *)
Theorem MatchPattern_kind_discriminates :
  getKind (base (construct NewAny)) = Any /\
  getKind (base (construct NewCons)) = Cons /\
  (forall arity, getKind (base (construct (NewTuple arity))) = Tuple) /\
  (forall key, getKind (base (construct (NewMap key))) = MapItem) /\
  (forall ty, getKind (base (construct (NewIsType ty))) = IsType) /\
  (forall value, getKind (base (construct (NewValue value))) = Value) /\
  (forall spec size,
      getKind (base (construct (NewBinary spec size))) = Binary) /\
  (forall c p, classof c p = true <-> getKind p = classTag c) /\
  (forall c c', classTag c = classTag c' <-> c = c') /\
  (forall e c,
      classof c (base (construct e)) = true <->
      c = classOfObject (construct e)) /\
  (forall e c,
      dyn_cast c (base (construct e)) = Some (base (construct e)) <->
      c = classOfObject (construct e)) /\
  (forall e c,
      dyn_cast c (base (construct e)) = None <->
      c <> classOfObject (construct e)).
Proof.
  assert (Hone : forall e c,
             classof c (base (construct e)) = true <->
             c = classOfObject (construct e)).
  { intros e c. rewrite classof_iff_kind, construct_kind. split.
    - intros H. symmetry. now apply classTag_injective.
    - now intros ->. }
  repeat split; try reflexivity.
  - apply classof_iff_kind.
  - apply classof_iff_kind.
  - apply classTag_injective.
  - now intros ->.
  - apply Hone.
  - apply Hone.
  - unfold dyn_cast. intros H. apply Hone.
    destruct (classof c (base (construct e))); [reflexivity|discriminate].
  - intros Hc. unfold dyn_cast. apply Hone in Hc. now rewrite Hc.
  - unfold dyn_cast. intros H Hc. apply Hone in Hc. rewrite Hc in H.
    discriminate.
  - intros Hc. unfold dyn_cast.
    destruct (classof c (base (construct e))) eqn:Hk; [|reflexivity].
    apply Hone in Hk. contradiction.
Qed.

End PatternClaims.

(** * Properties of the match dispatch *)

Section MatchClaims.

Import MatchPatternType MatchOp MatchLowering.

Section FirstMatch.

Variable env : IR.Value -> Term.
Variable typeTagOf : Term -> Z.
Variable segmentDecodes :
  Binary.BinarySpecifier -> option Term -> Term -> bool.

(** Lowering keeps one arm per branch, in order. *)
Lemma lowerBranches_split pre b post arms :
  lowerBranches (pre ++ b :: post) = Some arms ->
  exists armsPre p armsPost,
    lowerBranches pre = Some armsPre /\
    toPattern (pattern b) = Some p /\
    lowerBranches post = Some armsPost /\
    arms = armsPre ++ mkArm p (dest b) (destArgs b) :: armsPost.
Proof.
  revert arms. induction pre as [|b0 pre IH]; intros arms H; simpl in H.
  - destruct (toPattern (pattern b)) as [p|]; [|discriminate].
    destruct (lowerBranches post) as [armsPost|]; [|discriminate].
    inversion H; subst. exists [], p, armsPost. auto.
  - destruct (toPattern (pattern b0)) as [p0|] eqn:Hp0; [|discriminate].
    destruct (lowerBranches (pre ++ b :: post)) as [arms'|] eqn:Hrest;
      [|discriminate].
    inversion H; subst.
    destruct (IH arms' eq_refl)
      as (armsPre & p & armsPost & Hpre & Hp & Hpost & ->).
    exists (mkArm p0 (dest b0) (destArgs b0) :: armsPre), p, armsPost.
    simpl. rewrite Hp0, Hpre. auto.
Qed.

Lemma dispatch_skips_prefix sel armsPre :
  forall rest,
    (forall arm, In arm armsPre -> structurallyMatches env typeTagOf segmentDecodes (arm_pattern arm) sel
      = false) ->
    dispatch env typeTagOf segmentDecodes (armsPre ++ rest) sel
    = dispatch env typeTagOf segmentDecodes rest sel.
Proof.
  induction armsPre as [|arm armsPre IH]; intros rest Hnone; simpl.
  - reflexivity.
  - rewrite (Hnone arm (or_introl eq_refl)).
    apply IH. intros arm' Hin. apply Hnone. now right.
Qed.

Lemma lowerBranches_arm pre :
  forall armsPre arm,
    lowerBranches pre = Some armsPre ->
    In arm armsPre ->
    exists b, In b pre /\ toPattern (pattern b) = Some (arm_pattern arm).
Proof.
  induction pre as [|b0 pre IH]; intros armsPre arm H Hin; simpl in H.
  - inversion H; subst. contradiction.
  - destruct (toPattern (pattern b0)) as [p0|] eqn:Hp0; [|discriminate].
    destruct (lowerBranches pre) as [arms'|]; [|discriminate].
    inversion H; subst. destruct Hin as [<-|Hin].
    + exists b0. split; [now left | exact Hp0].
    + destruct (IH arms' arm eq_refl Hin) as (b & Hb & Hpat).
      exists b. split; [now right | exact Hpat].
Qed.

Lemma runMatch_first_match (m : Match) pre b post p :
  branchList m = pre ++ b :: post ->
  (exists arms, lowerMatch m = Some arms) ->
  toPattern (pattern b) = Some p ->
  structurallyMatches env typeTagOf segmentDecodes p (env (selector m))
  = true ->
  (forall b' p',
      In b' pre -> toPattern (pattern b') = Some p' ->
      structurallyMatches env typeTagOf segmentDecodes p'
                          (env (selector m)) = false) ->
  runMatch env typeTagOf segmentDecodes m
  = Some (Some (dest b, destArgs b)).
Proof.
  intros Hsplit [arms Hlow] Hp Hmatch Hearlier.
  unfold runMatch. rewrite Hlow. unfold lowerMatch in Hlow.
  rewrite Hsplit in Hlow.
  destruct (lowerBranches_split pre b post arms Hlow)
    as (armsPre & p' & armsPost & Hpre & Hp' & _ & ->).
  assert (p' = p) by congruence. subst p'.
  rewrite dispatch_skips_prefix.
  - simpl. now rewrite Hmatch.
  - intros arm Hin.
    destruct (lowerBranches_arm pre armsPre arm Hpre Hin)
      as (b' & Hb' & Hpat).
    now apply (Hearlier b' (arm_pattern arm)).
Qed.

End FirstMatch.

(** C3.  The branch taken is the first one, in list order, whose pattern
    matches the selector: control goes to its destination with its
    arguments.  With branches [Value(5) -> Bt, Any -> Ba] and selector 5 that
    is [Bt]; with the two branches swapped it is [Ba]. *)
Theorem Match_takes_first_matching_branch :
  (forall (env : IR.Value -> Term) (typeTagOf : Term -> Z)
          (segmentDecodes :
             Binary.BinarySpecifier -> option Term -> Term -> bool)
          (m : Match) (pre : list MLIRMatchBranch) (b : MLIRMatchBranch)
          (post : list MLIRMatchBranch) (p : PatternObject),
      branchList m = pre ++ b :: post ->
      (exists arms, lowerMatch m = Some arms) ->
      toPattern (pattern b) = Some p ->
      structurallyMatches env typeTagOf segmentDecodes p (env (selector m))
      = true ->
      (forall b' p',
          In b' pre -> toPattern (pattern b') = Some p' ->
          structurallyMatches env typeTagOf segmentDecodes p'
                              (env (selector m)) = false) ->
      runMatch env typeTagOf segmentDecodes m
      = Some (Some (dest b, destArgs b))) /\
  runMatch envFive noTypeTags noSegments valueThenAny
  = Some (Some (dest valueBranch, destArgs valueBranch)) /\
  runMatch envFive noTypeTags noSegments anyThenValue
  = Some (Some (dest anyBranch, destArgs anyBranch)) /\
  dest valueBranch <> dest anyBranch.
Proof.
  split; [|repeat split; discriminate].
  intros env typeTagOf segmentDecodes m pre b post p.
  apply runMatch_first_match.
Qed.

Lemma Match_takes_first_matching_branch_witness :
  runMatch envFive noTypeTags noSegments tupleValueAny
  = Some (Some (dest valueBranch, destArgs valueBranch)).
Proof.
  apply (proj1 Match_takes_first_matching_branch
               envFive noTypeTags noSegments tupleValueAny
               [tupleBranch] valueBranch [anyBranch]
               (construct (NewValue literal5))).
  - reflexivity.
  - eexists. reflexivity.
  - reflexivity.
  - reflexivity.
  - intros b' p' [<-|[]] Hp. inversion Hp. reflexivity.
Defined.

End MatchClaims.

(** * Properties of the map update *)

Section MapUpdateClaims.

Import MapOps.

Variable env : MLIRValueRef -> Z.

Lemma lowerActions_length acts steps :
  lowerActions acts = inr steps -> length steps = length acts.
Proof.
  revert steps. induction acts as [|a rest IH]; intros steps H; simpl in H.
  - inversion H. reflexivity.
  - destruct (lowerAction a) as [e|step]; [discriminate|].
    destruct (lowerActions rest) as [e|steps']; [discriminate|].
    inversion H; subst. simpl. f_equal. now apply IH.
Qed.

Lemma lowerActions_nth acts :
  forall steps k a,
    lowerActions acts = inr steps ->
    nth_error acts k = Some a ->
    exists step, lowerAction a = inr step /\ nth_error steps k = Some step.
Proof.
  induction acts as [|a0 rest IH]; intros steps k a H Hk; simpl in H.
  - destruct k; discriminate.
  - destruct (lowerAction a0) as [e|step0] eqn:Ha0; [discriminate|].
    destruct (lowerActions rest) as [e|steps']; [discriminate|].
    inversion H; subst. destruct k as [|k]; simpl in *.
    + inversion Hk; subst. eauto.
    + now apply (IH steps' k a).
Qed.

Lemma lowerActions_no_Unknown acts steps :
  lowerActions acts = inr steps ->
  forall a, In a acts -> action a <> MapActionType.Unknown.
Proof.
  revert steps. induction acts as [|a0 rest IH]; intros steps H a Hin;
    simpl in H.
  - contradiction.
  - destruct (lowerAction a0) as [e|step] eqn:Ha0; [discriminate|].
    destruct (lowerActions rest) as [e|steps']; [discriminate|].
    destruct Hin as [<-|Hin].
    + unfold lowerAction in Ha0. intros Hk. rewrite Hk in Ha0. discriminate.
    + now apply (IH steps').
Qed.

Lemma runSteps_all_succeed okBlock errBlock steps :
  forall position m m',
    applySteps env steps m = Some m' ->
    runSteps env okBlock errBlock steps position m
    = List.map Evaluated (seq position (length steps))
      ++ [ReachedOk okBlock m'].
Proof.
  induction steps as [|step rest IH]; intros position m m' H; simpl in *.
  - inversion H. reflexivity.
  - destruct (applyStep env step m) as [m1|]; [|discriminate].
    f_equal. now apply IH.
Qed.

Lemma runSteps_first_failure okBlock errBlock k :
  forall steps position m mk step,
    applySteps env (firstn k steps) m = Some mk ->
    nth_error steps k = Some step ->
    applyStep env step mk = None ->
    runSteps env okBlock errBlock steps position m
    = List.map Evaluated (seq position (S k)) ++ [ReachedErr errBlock].
Proof.
  induction k as [|k IH]; intros steps position m mk step Hpre Hk Hfail;
    destruct steps as [|s0 rest]; simpl in *; try discriminate.
  - inversion Hpre; subst. inversion Hk; subst.
    now rewrite Hfail.
  - destruct (applyStep env s0 m) as [m1|]; [|discriminate].
    f_equal. now apply (IH rest (S position) m1 mk step).
Qed.

Lemma filter_Evaluated (f : Event -> bool) positions :
  (forall n, f (Evaluated n) = false) ->
  List.filter f (List.map Evaluated positions) = [].
Proof.
  intros Hf. induction positions as [|n rest IH]; simpl.
  - reflexivity.
  - now rewrite Hf.
Qed.

End MapUpdateClaims.

(** C4.  For a map update that passes the build (no action of kind
    Unknown), the emitted code runs the actions in order.  If every action
    succeeds on the map left by the ones before it, all [n] actions run and
    control reaches the ok-block once, with the resulting map, and never the
    err-block.  If the action at position [k] is the first to fail, the
    actions at positions [0..k] run and no later one, and control reaches
    the err-block once and never the ok-block.  Insert succeeds on every
    map; Update fails exactly when the key is absent. *)
Theorem MapUpdate_runs_in_order_and_short_circuits :
  forall (env : MLIRValueRef -> Z) (mu : MapOps.MapUpdate)
         (steps : list MapOps.MapStep) (m : gmap Z Z),
    MapOps.lowerMapUpdate mu = inr steps ->
    length steps = length (MapOps.actions mu) /\
    (forall k a,
        nth_error (MapOps.actions mu) k = Some a ->
        exists step,
          MapOps.lowerAction a = inr step /\ nth_error steps k = Some step) /\
    (forall k v m0, MapOps.applyStep env (MapOps.StepInsert k v) m0 <> None) /\
    (forall k v m0,
        MapOps.applyStep env (MapOps.StepUpdate k v) m0 = None <->
        m0 !! env k = None) /\
    (forall m',
        MapOps.applySteps env steps m = Some m' ->
        exists trace,
          MapOps.runMapUpdate env mu m = inr trace /\
          trace = List.map MapOps.Evaluated (seq 0 (length steps))
                  ++ [MapOps.ReachedOk (MapOps.ok mu) m'] /\
          List.filter MapOps.isReachedOk trace
          = [MapOps.ReachedOk (MapOps.ok mu) m'] /\
          List.filter MapOps.isReachedErr trace = []) /\
    (forall k step mk,
        MapOps.applySteps env (firstn k steps) m = Some mk ->
        nth_error steps k = Some step ->
        MapOps.applyStep env step mk = None ->
        exists trace,
          MapOps.runMapUpdate env mu m = inr trace /\
          trace = List.map MapOps.Evaluated (seq 0 (S k))
                  ++ [MapOps.ReachedErr (MapOps.err mu)] /\
          List.filter MapOps.isReachedErr trace
          = [MapOps.ReachedErr (MapOps.err mu)] /\
          List.filter MapOps.isReachedOk trace = [] /\
          (forall j, In (MapOps.Evaluated j) trace -> j <= k)).
Proof.
  intros env mu steps m Hlow. split; [|split; [|split; [|split; [|split]]]].
  - now apply lowerActions_length.
  - intros k a. now apply lowerActions_nth.
  - intros k v m0. discriminate.
  - intros k v m0. simpl. destruct (m0 !! env k); split; congruence.
  - intros m' Hall. eexists. split; [|split; [reflexivity|]].
    + unfold MapOps.runMapUpdate. rewrite Hlow.
      now rewrite (runSteps_all_succeed env _ _ steps 0 m m' Hall).
    + rewrite !List.filter_app, !filter_Evaluated by reflexivity.
      split; reflexivity.
  - intros k step mk Hpre Hk Hfail. eexists.
    split; [|split; [reflexivity|]].
    + unfold MapOps.runMapUpdate. rewrite Hlow.
      now rewrite (runSteps_first_failure env _ _ k steps 0 m mk step).
    + rewrite !List.filter_app, !filter_Evaluated by reflexivity.
      split; [reflexivity|]. split; [reflexivity|].
      intros j Hin. apply in_app_or in Hin. destruct Hin as [Hin|Hin].
      * apply in_map_iff in Hin. destruct Hin as (j' & Hj & Hseq).
        inversion Hj; subst. apply in_seq in Hseq. lia.
      * destruct Hin as [Hin|[]]. discriminate.
Qed.

Lemma MapUpdate_runs_in_order_and_short_circuits_witness :
  (exists trace,
      MapOps.runMapUpdate MapOps.envOwner MapOps.threeGood ∅ = inr trace /\
      List.filter MapOps.isReachedOk trace
      = [MapOps.ReachedOk 1 (<[3%Z := 30%Z]> (<[1%Z := 11%Z]> ∅))]) /\
  (exists trace,
      MapOps.runMapUpdate MapOps.envOwner MapOps.thirdFails ∅ = inr trace /\
      trace = [MapOps.Evaluated 0; MapOps.Evaluated 1; MapOps.Evaluated 2;
               MapOps.ReachedErr 2]).
Proof.
  split.
  - destruct (MapUpdate_runs_in_order_and_short_circuits
                MapOps.envOwner MapOps.threeGood
                [MapOps.StepInsert (MapOps.constant 1) (MapOps.constant 10);
                 MapOps.StepUpdate (MapOps.constant 1) (MapOps.constant 11);
                 MapOps.StepInsert (MapOps.constant 3) (MapOps.constant 30)]
                ∅ eq_refl) as (_ & _ & _ & _ & Hok & _).
    destruct (Hok (<[3%Z := 30%Z]> (<[1%Z := 11%Z]> ∅)))
      as (trace & Hrun & _ & Hokonce & _).
    { vm_compute. reflexivity. }
    exists trace. split; assumption.
  - destruct (MapUpdate_runs_in_order_and_short_circuits
                MapOps.envOwner MapOps.thirdFails
                [MapOps.StepInsert (MapOps.constant 1) (MapOps.constant 10);
                 MapOps.StepUpdate (MapOps.constant 1) (MapOps.constant 11);
                 MapOps.StepUpdate (MapOps.constant 9) (MapOps.constant 90);
                 MapOps.StepInsert (MapOps.constant 3) (MapOps.constant 30)]
                ∅ eq_refl) as (_ & _ & _ & _ & _ & Herr).
    destruct (Herr 2 (MapOps.StepUpdate (MapOps.constant 9)
                                        (MapOps.constant 90))
                   (<[1%Z := 11%Z]> ∅))
      as (trace & Hrun & Htrace & _).
    { vm_compute. reflexivity. }
    { reflexivity. }
    { vm_compute. reflexivity. }
    exists trace. split; assumption.
Defined.

(** * Properties of the closure environment *)

Section ClosureClaims.

Import Closures.

Lemma storeArray_lookup_below values :
  forall base (h : gmap nat MLIRValueRef) a,
    a < base -> storeArray base values h !! a = h !! a.
Proof.
  induction values as [|v rest IH]; intros base h a Hlt; simpl.
  - reflexivity.
  - rewrite IH by lia. apply lookup_insert_ne. lia.
Qed.

Lemma storeArray_lookup values :
  forall base (h : gmap nat MLIRValueRef) i,
    i < length values ->
    storeArray base values h !! (base + i) = nth_error values i.
Proof.
  induction values as [|v rest IH]; intros base h i Hi; simpl in *.
  - lia.
  - destruct i as [|i]; simpl.
    + rewrite Nat.add_0_r, storeArray_lookup_below by lia.
      apply lookup_insert_eq.
    + replace (base + S i) with (S base + i) by lia.
      apply IH. lia.
Qed.

Lemma readArray_storeArray values :
  forall base (h : gmap nat MLIRValueRef),
    readArray (storeArray base values h) base (length values) = Some values.
Proof.
  induction values as [|v rest IH]; intros base h; simpl.
  - reflexivity.
  - rewrite storeArray_lookup_below by lia.
    rewrite lookup_insert_eq. now rewrite IH.
Qed.

End ClosureClaims.

(** C8.  A closure constructed over the captured values [v1 .. vN] ([N]
    within the range of the [unsigned] count) records the count [N], and
    reading its environment back gives [v1 .. vN] in that order, as a whole
    and position by position. *)
Theorem Closure_env_order_preserved :
  forall (loc : MLIRLocationRef) (module : MLIRAttributeRef) (name : string)
         (arity index oldUnique : Z) (unique : list Z) (base : nat)
         (captured : list MLIRValueRef) (h : gmap nat MLIRValueRef),
    (Z.of_nat (length captured) <= Closures.UINT_MAX)%Z ->
    let built := Closures.makeClosure loc module name arity index oldUnique
                                      unique base captured h in
    Closures.envLen (fst built) = Z.of_nat (length captured) /\
    Closures.readEnv (snd built) (fst built) = Some captured /\
    (forall i,
        Closures.envAt (snd built) (fst built) i = nth_error captured i).
Proof.
  intros loc module name arity index oldUnique unique base captured h Hlen.
  unfold Closures.UINT_MAX in Hlen.
  assert (Hmod : (Z.of_nat (length captured) mod 2 ^ 32
                  = Z.of_nat (length captured))%Z).
  { apply Z.mod_small. lia. }
  simpl. split; [exact Hmod|]. split.
  - unfold Closures.readEnv. simpl. rewrite Hmod, Nat2Z.id.
    apply readArray_storeArray.
  - intros i. unfold Closures.envAt. simpl. rewrite Hmod.
    destruct (Z.ltb_spec (Z.of_nat i) (Z.of_nat (length captured)))
      as [Hlt|Hge].
    + apply storeArray_lookup. lia.
    + symmetry. apply nth_error_None. lia.
Qed.

Lemma Closure_env_order_preserved_witness :
  Closures.readEnv
    (snd (Closures.makeClosure 0 0 "f" 1 0 0 [] 16
            [IR.OpResult 1 0; IR.OpResult 2 0; IR.OpResult 3 0] ∅))
    (fst (Closures.makeClosure 0 0 "f" 1 0 0 [] 16
            [IR.OpResult 1 0; IR.OpResult 2 0; IR.OpResult 3 0] ∅))
  = Some [IR.OpResult 1 0; IR.OpResult 2 0; IR.OpResult 3 0].
Proof.
  apply (Closure_env_order_preserved 0 0 "f" 1 0 0 [] 16
           [IR.OpResult 1 0; IR.OpResult 2 0; IR.OpResult 3 0] ∅).
  vm_compute. discriminate.
Defined.

(** * The resolver as one pass over the examined edges *)

Section EdgePass.

Import IR ResolverEdges.


Section Pass.

Variable fallOff : FallOff.
Variable recurse : Value -> run (option OperationPtr).
Variable block : BlockPtr.
Variable index : nat.

Lemma successorLoop_scan branchInterface its :
  forall found,
    successorLoop fallOff recurse block index branchInterface its found
    = scanEdges fallOff recurse
                (edgesOfBranch block index branchInterface its) found.
Proof.
  induction its as [|[i succ] rest IH]; intros found;
    [reflexivity|].
  unfold edgesOfBranch in *. cbn [successorLoop flat_map fst snd].
  destruct (Nat.eqb block succ); cbn [negb app].
  - unfold edgeOf.
    destruct (nth_error (successorOperands branchInterface) i)
      as [[operands|]|]; cbn [scanEdges]; [|apply IH|reflexivity].
    destruct (nth_error operands index) as [candidate|]; cbn [scanEdges];
      [|reflexivity].
    destruct (recurse candidate) as [def| | |]; cbn [run_bind];
      try reflexivity.
    destruct (isNonNull found && ptr_neq def found); [reflexivity|apply IH].
  - apply IH.
Qed.



End Pass.




(** *** What the first operand decides *)

Section FirstOperand.

Variable fallOff : WalkResult.
Variable recurse : Value -> run (option OperationPtr).
Variable block : BlockPtr.
Variable index : nat.



End FirstOperand.



End EdgePass.

(** * Further properties of the definition resolver *)

Section ResolverEdgeFacts.

Import IR ResolverEdges.







End ResolverEdgeFacts.

(** * Returns that do not depend on a callback running off its end *)

Section DefinedPaths.

Import IR ResolverEdges.

Variable fallOff : FallOff.
Variable recurse : Value -> run (option OperationPtr).
Variable block : BlockPtr.
Variable index : nat.

Hypothesis recurse_result :
  forall op k, recurse (OpResult op k) = Done (Some op).

Lemma scan_secondDiffers first edges :
  secondDiffers first edges = true ->
  scanEdges fallOff recurse edges (Some first)
  = Done (interrupt, Some first).
Proof.
  induction edges as [|e rest IH]; intros H; [discriminate|].
  destruct e as [| |[|owner k|b i]]; cbn [secondDiffers] in H;
    try discriminate.
  - cbn [scanEdges]. now apply IH.
  - cbn [scanEdges]. rewrite recurse_result. cbn [run_bind isNonNull andb].
    cbn [ptr_neq]. now rewrite H.
Qed.

Lemma scan_conflictingPair edges :
  conflictingPair edges = true ->
  exists first,
    scanEdges fallOff recurse edges None = Done (interrupt, Some first).
Proof.
  induction edges as [|e rest IH]; intros H; [discriminate|].
  destruct e as [| |[|owner k|b i]]; cbn [conflictingPair] in H;
    try discriminate.
  - cbn [scanEdges]. now apply IH.
  - exists owner. cbn [scanEdges]. rewrite recurse_result.
    cbn [run_bind isNonNull andb]. now apply scan_secondDiffers.
Qed.

Lemma walk_leaves_by_interrupt pred :
  match branchOps pred with
  | [] => true
  | br :: _ =>
      conflictingPair
        (edgesOfBranch block index br (indexed (successors pred)))
  end = true ->
  exists found,
    walk fallOff recurse block index pred (branchOps pred) None
    = Done found.
Proof.
  destruct (branchOps pred) as [|br ops]; intros H.
  - exists None. reflexivity.
  - destruct (scan_conflictingPair _ H) as [first Hscan].
    exists (Some first). cbn [walk].
    now rewrite successorLoop_scan, Hscan.
Qed.

Lemma predecessorLoop_walks_done preds :
  (forall pred,
      In pred preds ->
      exists found,
        walk fallOff recurse block index pred (branchOps pred) None
        = Done found) ->
  forall result,
    predecessorLoop fallOff recurse block index preds result = Done None.
Proof.
  induction preds as [|pred rest IH]; intros Hwalks result;
    [reflexivity|].
  cbn [predecessorLoop].
  destruct (Hwalks pred (or_introl eq_refl)) as [found Hfound].
  rewrite Hfound. cbn [run_bind].
  destruct (isNonNull result && ptr_neq found result); [reflexivity|].
  apply IH. intros p Hp. apply Hwalks. now right.
Qed.

End DefinedPaths.

Section UndefinedPaths.

Import IR ResolverEdges.

Variable recurse : Value -> run (option OperationPtr).
Variable block : BlockPtr.
Variable index : nat.

Lemma not_Done_bind {A B : Type} (m : run A) (k : A -> run B) :
  (forall a, m <> Done a) -> forall b, run_bind m k <> Done b.
Proof.
  intros Hm b. destruct m as [a| | |]; cbn [run_bind]; try discriminate.
  now destruct (Hm a).
Qed.

Lemma not_Done_then {A B : Type} (m : run A) (k : A -> run B) :
  (forall a b, k a <> Done b) -> forall b, run_bind m k <> Done b.
Proof.
  intros Hk b. destruct m as [a| | |]; cbn [run_bind]; try discriminate.
  apply Hk.
Qed.

Lemma scan_no_operand_undefined edges :
  List.filter isValueEdge edges = [] ->
  forall found x, scanEdges undefined recurse edges found <> Done x.
Proof.
  induction edges as [|e rest IH]; intros Hnone found x;
    [discriminate|].
  destruct e as [| |candidate]; cbn [List.filter isValueEdge] in Hnone;
    cbn [scanEdges]; try discriminate.
  now apply IH.
Qed.

Lemma scan_one_operand_undefined edges :
  atMostOneOperand edges = true ->
  forall x, scanEdges undefined recurse edges None <> Done x.
Proof.
  unfold atMostOneOperand.
  induction edges as [|e rest IH]; intros Hone x; [discriminate|].
  destruct e as [| |candidate]; cbn [List.filter isValueEdge] in Hone;
    cbn [scanEdges]; try discriminate.
  - now apply IH.
  - apply not_Done_then. intros def. cbn [isNonNull andb].
    apply scan_no_operand_undefined.
    cbn [length] in Hone. apply Nat.leb_le in Hone.
    destruct (List.filter isValueEdge rest); [reflexivity|].
    simpl in Hone. lia.
Qed.

Lemma predecessorLoop_undefined pre p rest br ops :
  forallb holdsNoBranch pre = true ->
  branchOps p = br :: ops ->
  atMostOneOperand
    (edgesOfBranch block index br (indexed (successors p))) = true ->
  forall r,
    predecessorLoop undefined recurse block index (pre ++ p :: rest) None
    <> Done r.
Proof.
  intros Hpre Hp Hone.
  induction pre as [|q pre IH]; intros r.
  - cbn [app predecessorLoop]. apply not_Done_bind. intros found.
    rewrite Hp. cbn [walk]. apply not_Done_bind. intros x.
    rewrite successorLoop_scan. now apply scan_one_operand_undefined.
  - cbn [forallb] in Hpre. apply andb_true_iff in Hpre.
    destruct Hpre as [Hq Hrest]. unfold holdsNoBranch in Hq.
    cbn [app predecessorLoop].
    destruct (branchOps q); [|discriminate].
    cbn [walk run_bind isNonNull andb]. now apply IH.
Qed.

End UndefinedPaths.

Section ResolverFallOffFacts.

Import IR ResolverEdges.

(** X1.  [getDefinition] returns the null pointer, whatever becomes of a
    callback that runs off its end, when no callback does: every
    predecessor either holds no branch operation, or its first branch
    operation forwards into the argument, first, results of two different
    operations, so that its callback leaves through the
    [return WalkResult::interrupt()] of line 46. *)
Theorem getDefinition_returns_when_callbacks_interrupt :
  forall (fallOff : FallOff) (g : Region) (block : BlockPtr)
         (index fuel : nat),
    everyCallbackInterrupts g block index = true ->
    getDefinition fallOff (S (S fuel)) g (BlockArgument block index)
    = Done None.
Proof.
  intros fallOff g block index fuel Hall.
  cbn [getDefinition].
  destruct (isEntryBlock block); [reflexivity|].
  destruct (hasNoPredecessors g block); [reflexivity|].
  apply predecessorLoop_walks_done.
  unfold everyCallbackInterrupts in Hall. rewrite forallb_forall in Hall.
  intros pred Hin.
  apply walk_leaves_by_interrupt; [|now apply Hall].
  intros op k. reflexivity.
Qed.

Lemma getDefinition_returns_when_callbacks_interrupt_witness :
  getDefinition undefined 2 bothEdges (BlockArgument 1 0) = Done None.
Proof.
  apply (getDefinition_returns_when_callbacks_interrupt
           undefined bothEdges 1 0 0).
  reflexivity.
Defined.

(** X7.  The lambda handed to [walk] has no return statement after its loop,
    and running off the end of a value-returning function is undefined.
    Read that way, [getDefinition] has no defined return for a block
    argument whose first branch-holding predecessor forwards at most one
    operand into it through its first branch operation, as every ordinary
    branch does: the call exhausts the recursion, stops at an assertion, or
    reaches the undefined end of the lambda. *)
Theorem getDefinition_no_defined_return :
  forall (g : Region) (block : BlockPtr) (index : nat)
         (pre : list Block) (p : Block) (rest : list Block)
         (br : BranchOp) (ops : list BranchOp),
    isEntryBlock block = false ->
    getPredecessors g block = pre ++ p :: rest ->
    forallb holdsNoBranch pre = true ->
    branchOps p = br :: ops ->
    atMostOneOperand
      (edgesOfBranch block index br (indexed (successors p))) = true ->
    forall (fuel : nat) (r : option OperationPtr),
      getDefinition undefined fuel g (BlockArgument block index) <> Done r.
Proof.
  intros g block index pre p rest br ops Hentry Hpreds Hpre Hp Hone fuel r.
  destruct fuel as [|fuel]; [discriminate|].
  cbn [getDefinition]. rewrite Hentry.
  unfold hasNoPredecessors. rewrite Hpreds.
  destruct (pre ++ p :: rest) as [|q qs] eqn:Hq.
  { destruct pre; discriminate. }
  rewrite <- Hq.
  now apply (predecessorLoop_undefined _ block index pre p rest br ops).
Qed.

Lemma getDefinition_no_defined_return_witness :
  atMostOneOperand (incoming singlePred 1 0) = true /\
  getDefinition undefined 5 singlePred (BlockArgument 1 0) <> Done None /\
  getDefinition undefined 5 singlePred (BlockArgument 1 0)
  <> Done (Some 7).
Proof.
  split; [reflexivity|].
  split;
    apply (getDefinition_no_defined_return
             singlePred 1 0 []
             (mkBlock 0 [mkBranchOp 8 [Some [OpResult 7 0]]] [1]) []
             (mkBranchOp 8 [Some [OpResult 7 0]]) []); reflexivity.
Defined.

End ResolverFallOffFacts.

(** * Further properties of the binary specifier payload *)

Section PayloadFacts.

Import CUnion.
Local Open Scope string_scope.
Local Open Scope Z_scope.

(** X9.  Among the four members of [BinarySpecifierPayload], [f] and [es]
    are the only two different members whose declarations begin with the
    same field: their common initial sequence is the one endianness field,
    and every other pair of different members has an empty one.  An
    endianness stored through either of the two reads back through the
    other. *)
Theorem BinarySpecifierPayload_shared_leading_field :
  forall (e : Endianness.Type_) (unit : Z),
    commonInitial Binary.FloatSpecifier Binary.EndiannessSpecifier = 1%nat /\
    commonInitial Binary.EndiannessSpecifier Binary.FloatSpecifier = 1%nat /\
    commonInitial Binary.IntegerSpecifier Binary.FloatSpecifier = 0%nat /\
    commonInitial Binary.IntegerSpecifier Binary.UnitSpecifier = 0%nat /\
    commonInitial Binary.IntegerSpecifier Binary.EndiannessSpecifier
    = 0%nat /\
    commonInitial Binary.FloatSpecifier Binary.IntegerSpecifier = 0%nat /\
    commonInitial Binary.FloatSpecifier Binary.UnitSpecifier = 0%nat /\
    commonInitial Binary.UnitSpecifier Binary.IntegerSpecifier = 0%nat /\
    commonInitial Binary.UnitSpecifier Binary.FloatSpecifier = 0%nat /\
    commonInitial Binary.UnitSpecifier Binary.EndiannessSpecifier
    = 0%nat /\
    commonInitial Binary.EndiannessSpecifier Binary.IntegerSpecifier
    = 0%nat /\
    commonInitial Binary.EndiannessSpecifier Binary.UnitSpecifier
    = 0%nat /\
    read Binary.BinarySpecifierPayload (Binary.payload_f e unit)
         "es" "endianness" = Defined (Endianness.toZ e) /\
    read Binary.BinarySpecifierPayload (Binary.payload_es e)
         "f" "endianness" = Defined (Endianness.toZ e).
Proof. intros e unit. repeat split. Qed.

End PayloadFacts.
